(** * The built-in connect proxy: reconfiguration loop, listener start, shutdown

    Shallow embedding of [connect/proxy/proxy.go].

    The sequential code of [Serve], [startListener] and [Close] is written in
    a small state monad over the proxy object, the pool of goroutines and a
    chronological trace of observable calls.  The blocking points of the
    program (the [select] of [Serve], the receive on [stopChan] of a closer
    goroutine, the blocking [l.Serve()] of a listener goroutine) are the
    enabling conditions of an interleaving semantics [exec], whose schedules
    are lists of [Action]s. *)

From stdpp Require Import base option list strings.

Local Open Scope Z_scope.

(** A channel that carries no value and is only ever closed:
    [stopChan chan struct{}]. *)
Inductive chan := Open | Closed.

(** ** External collaborators

    Everything in this part is declared outside [proxy.go]: in the packages
    [api] and [connect], and in the files [config.go] and [listener.go] of
    this package.  The proxy only calls it, so it is a parameter of the
    development: first the types, then the operations. *)

Class Foreign : Type := {
  Client : Type;                 (* api.Client *)
  Service : Type;                (* connect.Service *)
  error : Type;                  (* Go's error values, nil excluded *)
  Resolver : Type;               (* connect.Resolver *)
  ConfigWatcher : Type;
  PublicListenerConfig : Type;
  UpstreamSettings : Type;       (* fields of UpstreamConfig unused here *)
  Listener : Type
}.

Section Snapshot.

Context {F : Foreign}.

(** [UpstreamConfig]: the two fields [proxy.go] touches, and the rest. *)
Record UpstreamConfig := mkUpstream {
  LocalBindPort : Z;
  resolver : option Resolver;
  settings : UpstreamSettings
}.

(** [Config]: the fields [proxy.go] reads. *)
Record Config := mkConfig {
  ProxyID : string;
  ProxiedServiceID : string;
  PublicListener : PublicListenerConfig;
  Upstreams : list UpstreamConfig;
  DevCAFile : string;
  DevServiceCertFile : string;
  DevServiceKeyFile : string
}.

End Snapshot.

(** A Go result pair [(T, error)] is the value or the non-nil error. *)
Class Collaborators `{Foreign} : Type := {
  ParseConfigFile : string -> Config + error;
  NewDevServiceFromCertFiles :
    string -> string -> string -> string -> Service + error;
  NewStaticConfigWatcher : Config -> ConfigWatcher;
  NewAgentConfigWatcher : Client -> string -> ConfigWatcher + error;
  NewService : string -> Client -> Service + error;
  publicApplyDefaults : PublicListenerConfig -> PublicListenerConfig;
  upstreamApplyDefaults : UpstreamConfig -> UpstreamConfig;
  UpstreamResolverFromClient : Client -> UpstreamConfig -> Resolver;
  upstreamString : UpstreamConfig -> string;      (* uc.String() *)
  NewPublicListener : option Service -> PublicListenerConfig -> Listener;
  NewUpstreamListener : option Service -> UpstreamConfig -> Listener;
  BindAddr : Listener -> string;
  errString : error -> string;                    (* Printf's %s of an error *)
  leafURI : Service -> string;
  rootSubjects : Service -> string
}.

Section Proxy.

Context {F : Foreign} {Co : Collaborators}.

(** ** Data model *)

(** [type Proxy struct].  The [logger] field is the sink of the [Printf]
    effects of the trace.  [service] is a pointer that may be nil. *)
Record Proxy := mkProxy {
  proxyID : string;
  client : Client;
  cfgWatcher : ConfigWatcher;
  stopChan : chan;
  service : option Service
}.

(** The three function literals launched with [go]. *)
Inductive Goroutine :=
| ReadyLogger (svc : Service)                    (* Serve, lines 90-97 *)
| ListenerServe (name : string) (l : Listener)   (* startListener, lines 138-145 *)
| ListenerCloser (l : Listener).                 (* startListener, lines 147-151 *)

Inductive Thread :=
| Live (g : Goroutine)
| Finished (g : Goroutine).

(** What the program does to the outside, in the order it does it. *)
Inductive Effect :=
| Printf (line : string)                         (* p.logger.Printf *)
| CallNewService (id : string)                   (* connect.NewService *)
| CallNewPublicListener (svc : option Service) (pl : PublicListenerConfig)
| CallNewUpstreamListener (svc : option Service) (uc : UpstreamConfig)
| CallStartListener (name : string) (l : Listener)
| Go (g : Goroutine)                             (* a go statement *)
| CloseStopChan                                  (* close(p.stopChan) *)
| ServiceClose (svc : Service)                   (* p.service.Close() *)
| ListenerClose (l : Listener).                  (* l.Close() *)

Record State := mkState {
  proxy : Proxy;
  goroutines : list Thread;
  trace : list Effect
}.

(** ** Constructors *)

Definition NewFromConfigFile (c : Client) (filename : string) : Proxy + error :=
  match ParseConfigFile filename with
  | inr err => inr err
  | inl cfg =>
    match NewDevServiceFromCertFiles (ProxiedServiceID cfg) (DevCAFile cfg)
            (DevServiceCertFile cfg) (DevServiceKeyFile cfg) with
    | inr err => inr err
    | inl svc =>
      inl {| proxyID := ProxyID cfg;
             client := c;
             cfgWatcher := NewStaticConfigWatcher cfg;
             stopChan := Open;
             service := Some svc |}
    end
  end.

Definition New (c : Client) (id : string) : Proxy + error :=
  match NewAgentConfigWatcher c id with
  | inr err => inr err
  | inl cw =>
    inl {| proxyID := id;
           client := c;
           cfgWatcher := cw;
           stopChan := Open;
           service := None |}
  end.

(** ** The monad of the sequential code

    A computation either yields a value or executes a [return e] of the
    enclosing [Serve]; both leave a state. *)

Inductive result (A : Type) :=
| Val (a : A)
| Return (e : option error).
Global Arguments Val {A} a.
Global Arguments Return {A} e.

Definition M (A : Type) : Type := State -> result A * State.

Definition ret {A} (a : A) : M A := fun st => (Val a, st).

Definition bind {A B} (m : M A) (f : A -> M B) : M B :=
  fun st =>
    match m st with
    | (Val a, st') => f a st'
    | (Return e, st') => (Return e, st')
    end.

Definition returnWith {A} (e : option error) : M A := fun st => (Return e, st).

#[local] Instance M_ret : MRet M := @ret.
#[local] Instance M_bind : MBind M := fun A B f m => bind m f.

Definition emit (eff : Effect) : M unit :=
  fun st => (Val tt, {| proxy := proxy st;
                        goroutines := goroutines st;
                        trace := trace st ++ [eff] |}).

Definition printf (line : string) : M unit := emit (Printf line).

Definition go (g : Goroutine) : M unit :=
  fun st => (Val tt, {| proxy := proxy st;
                        goroutines := goroutines st ++ [Live g];
                        trace := trace st ++ [Go g] |}).

Definition getProxy : M Proxy := fun st => (Val (proxy st), st).

Definition setService (svc : option Service) : M unit :=
  fun st => (Val tt, {| proxy := {| proxyID := proxyID (proxy st);
                                    client := client (proxy st);
                                    cfgWatcher := cfgWatcher (proxy st);
                                    stopChan := stopChan (proxy st);
                                    service := svc |};
                        goroutines := goroutines st;
                        trace := trace st |}).

(** ** [startListener] *)

Definition startListener (name : string) (l : Listener) : M (option error) :=
  printf ("[INFO] " +:+ name +:+ " starting on " +:+ BindAddr l) ;;
  go (ListenerServe name l) ;;
  go (ListenerCloser l) ;;
  ret None.

(** ** The body of [Serve]'s config case

    [start] stands for the method [p.startListener] the body calls; [Serve]
    itself is the instance at [startListener]. *)

Section ServeBody.

Variable start : string -> Listener -> M (option error).

(** One iteration of [for _, uc := range newCfg.Upstreams]. *)
Definition upstreamBody (uc : UpstreamConfig) : M unit :=
  p ← getProxy;
  let uc := upstreamApplyDefaults uc in
  let uc := {| LocalBindPort := LocalBindPort uc;
               resolver := Some (UpstreamResolverFromClient (client p) uc);
               settings := settings uc |} in
  if LocalBindPort uc <? 1 then
    printf ("[ERR] upstream " +:+ upstreamString uc
            +:+ " has no local_bind_port. Can't start upstream.")
  else
    emit (CallNewUpstreamListener (service p) uc) ;;
    let l := NewUpstreamListener (service p) uc in
    emit (CallStartListener (upstreamString uc) l) ;;
    err ← start (upstreamString uc) l;
    match err with
    | Some e =>
      printf ("[ERR] failed to start upstream " +:+ upstreamString uc
              +:+ ": " +:+ errString e)
    | None => ret tt
    end.

Fixpoint rangeUpstreams (ucs : list UpstreamConfig) : M unit :=
  match ucs with
  | [] => ret tt
  | uc :: rest => upstreamBody uc ;; rangeUpstreams rest
  end.

(** The block under [if cfg == nil].  [newCfg] is a pointer in the source;
    the in-place [applyDefaults] of its public listener is the updated value
    this block yields. *)
Definition initialSetup (newCfg : Config) : M Config :=
  p ← getProxy;
  emit (CallNewService (ProxiedServiceID newCfg)) ;;
  match NewService (ProxiedServiceID newCfg) (client p) with
  | inr err => returnWith (Some err)
  | inl svc =>
    setService (Some svc) ;;
    go (ReadyLogger svc) ;;
    let pl := publicApplyDefaults (PublicListener newCfg) in
    let newCfg := {| ProxyID := ProxyID newCfg;
                     ProxiedServiceID := ProxiedServiceID newCfg;
                     PublicListener := pl;
                     Upstreams := Upstreams newCfg;
                     DevCAFile := DevCAFile newCfg;
                     DevServiceCertFile := DevServiceCertFile newCfg;
                     DevServiceKeyFile := DevServiceKeyFile newCfg |} in
    p ← getProxy;
    emit (CallNewPublicListener (service p) pl) ;;
    let l := NewPublicListener (service p) pl in
    emit (CallStartListener "public listener" l) ;;
    err ← start "public listener" l;
    match err with
    | Some e => returnWith (Some e)
    | None => ret newCfg
    end
  end.

(** [case newCfg := <-p.cfgWatcher.Watch()]: yields the new value of the
    local variable [cfg]. *)
Definition onConfigWith (cfg : option Config) (newCfg : Config) : M Config :=
  printf "[DEBUG] got new config" ;;
  newCfg ← match cfg with
           | None => initialSetup newCfg
           | Some _ => ret newCfg
           end;
  rangeUpstreams (Upstreams newCfg) ;;
  ret newCfg.

End ServeBody.

Definition onConfig : option Config -> Config -> M Config :=
  onConfigWith startListener.

(** ** [Close]

    [None] is the run-time panic of closing a closed channel. *)
Definition Close (st : State) : option State :=
  match stopChan (proxy st) with
  | Closed => None
  | Open =>
    let p := {| proxyID := proxyID (proxy st);
                client := client (proxy st);
                cfgWatcher := cfgWatcher (proxy st);
                stopChan := Closed;
                service := service (proxy st) |} in
    Some {| proxy := p;
            goroutines := goroutines st;
            trace := trace st ++ CloseStopChan ::
                       match service p with
                       | Some svc => [ServiceClose svc]
                       | None => []
                       end |}
  end.

(** ** Goroutine bodies

    [runGoroutine g r st] runs the body of [g] to its end; [None] when it is
    blocked.  [r] is what the blocking [l.Serve()] returned, chosen by the
    listener; only a [ListenerServe] goroutine looks at it.  A [ReadyLogger]
    runs once [service.ReadyWait()] has fired, which is up to the service. *)
Definition runGoroutine (g : Goroutine) (r : option error) : State -> option State :=
  fun st =>
    match g with
    | ReadyLogger svc =>
      Some (snd ((printf "[INFO] proxy loaded config and ready to serve" ;;
                  printf ("[DEBUG] leaf: " +:+ leafURI svc +:+ " roots: "
                          +:+ rootSubjects svc)) st))
    | ListenerServe name l =>
      match r with
      | Some err =>
        Some (snd (printf ("[ERR] " +:+ name +:+ " stopped with error: "
                           +:+ errString err) st))
      | None => Some (snd (printf ("[INFO] " +:+ name +:+ " stopped") st))
      end
    | ListenerCloser l =>
      match stopChan (proxy st) with
      | Open => None                               (* <-p.stopChan blocks *)
      | Closed => Some (snd (emit (ListenerClose l) st))
      end
    end.

(** ** The running system *)

(** The activation of [Serve]: inside its loop with the local variable
    [cfg], or returned. *)
Inductive ServeFrame :=
| Looping (cfg : option Config)
| Returned (e : option error).

Record Sys := mkSys {
  state : State;
  watch : list Config;      (* sent on cfgWatcher.Watch(), not yet received *)
  serve : ServeFrame
}.

Inductive Action :=
| Deliver (c : Config)                  (* the watcher sends a snapshot *)
| SelectConfig                          (* Serve's select takes the watcher case *)
| SelectStop                            (* Serve's select takes the stop case *)
| CallClose                             (* somebody calls p.Close() *)
| RunThread (i : nat) (r : option error).   (* goroutine number i runs *)

Definition markFinished (i : nat) (g : Goroutine) (st : State) : State :=
  {| proxy := proxy st;
     goroutines := <[i := Finished g]> (goroutines st);
     trace := trace st |}.

(** One step of the system; [None] when the action is not enabled (or, for
    [CallClose], panics).  [CallClose] runs the two statements of [Close]
    as one step, whereas in the program other goroutines may run between
    them; what is proved of [Close] below is the order of its two effects,
    its nil check and the panic of a second call, none of which depends on
    that. *)
Definition exec (a : Action) (s : Sys) : option Sys :=
  match a with
  | Deliver c =>
    Some {| state := state s; watch := watch s ++ [c]; serve := serve s |}
  | SelectConfig =>
    match serve s, watch s with
    | Looping cfg, newCfg :: rest =>
      let '(r, st') := onConfig cfg newCfg (state s) in
      Some {| state := st';
              watch := rest;
              serve := match r with
                       | Val cfg' => Looping (Some cfg')    (* cfg = newCfg *)
                       | Return e => Returned e
                       end |}
    | _, _ => None
    end
  | SelectStop =>
    match serve s, stopChan (proxy (state s)) with
    | Looping _, Closed =>
      Some {| state := state s; watch := watch s; serve := Returned None |}
    | _, _ => None
    end
  | CallClose =>
    st' ← Close (state s);
    Some {| state := st'; watch := watch s; serve := serve s |}
  | RunThread i r =>
    match goroutines (state s) !! i with
    | Some (Live g) =>
      st' ← runGoroutine g r (state s);
      Some {| state := markFinished i g st'; watch := watch s; serve := serve s |}
    | _ => None
    end
  end.

(** A schedule, run from left to right. *)
Fixpoint run (sched : list Action) (s : Sys) : option Sys :=
  match sched with
  | [] => Some s
  | a :: sched' => s' ← exec a s; run sched' s'
  end.

(** [Serve] has just been called on [p]; [w] is what the watcher's channel
    already holds. *)
Definition initSys (p : Proxy) (w : list Config) : Sys :=
  {| state := {| proxy := p; goroutines := []; trace := [] |};
     watch := w;
     serve := Looping None |}.

(** ** Reading the trace *)

Definition starts (tr : list Effect) : list (string * Listener) :=
  omap (fun e => match e with
                 | CallStartListener name l => Some (name, l)
                 | _ => None
                 end) tr.

Definition closes (tr : list Effect) : list Listener :=
  omap (fun e => match e with ListenerClose l => Some l | _ => None end) tr.

Definition publicBuilt (tr : list Effect) : list PublicListenerConfig :=
  omap (fun e => match e with CallNewPublicListener _ pl => Some pl | _ => None end) tr.

Definition upstreamBuilt (tr : list Effect) : list UpstreamConfig :=
  omap (fun e => match e with CallNewUpstreamListener _ uc => Some uc | _ => None end) tr.

Definition serviceCalls (tr : list Effect) : list string :=
  omap (fun e => match e with CallNewService id => Some id | _ => None end) tr.

Definition launched (tr : list Effect) : list Goroutine :=
  omap (fun e => match e with Go g => Some g | _ => None end) tr.

Definition stopFired (tr : list Effect) : list unit :=
  omap (fun e => match e with CloseStopChan => Some tt | _ => None end) tr.

Definition liveClosers (ts : list Thread) : list Listener :=
  omap (fun t => match t with Live (ListenerCloser l) => Some l | _ => None end) ts.

Definition doneClosers (ts : list Thread) : list Listener :=
  omap (fun t => match t with Finished (ListenerCloser l) => Some l | _ => None end) ts.

(** What an upstream entry is once its defaults and resolver are set. *)
Definition prepared (p : Proxy) (uc : UpstreamConfig) : UpstreamConfig :=
  let uc := upstreamApplyDefaults uc in
  {| LocalBindPort := LocalBindPort uc;
     resolver := Some (UpstreamResolverFromClient (client p) uc);
     settings := settings uc |}.

(** ** What the sequential code does, in closed form *)

(** [st] with threads appended to the pool and effects to the trace. *)
Definition addTo (st : State) (ts : list Thread) (effs : list Effect) : State :=
  {| proxy := proxy st;
     goroutines := goroutines st ++ ts;
     trace := trace st ++ effs |}.

Definition withService (p : Proxy) (svc : option Service) : Proxy :=
  {| proxyID := proxyID p;
     client := client p;
     cfgWatcher := cfgWatcher p;
     stopChan := stopChan p;
     service := svc |}.

Definition startEffects (name : string) (l : Listener) : list Effect :=
  [Printf ("[INFO] " +:+ name +:+ " starting on " +:+ BindAddr l);
   Go (ListenerServe name l);
   Go (ListenerCloser l)].

Definition startThreads (name : string) (l : Listener) : list Thread :=
  [Live (ListenerServe name l); Live (ListenerCloser l)].

Definition noPortLine (uc : UpstreamConfig) : string :=
  "[ERR] upstream " +:+ upstreamString uc
  +:+ " has no local_bind_port. Can't start upstream.".

Definition upstreamEffects (p : Proxy) (uc : UpstreamConfig) : list Effect :=
  let uc := prepared p uc in
  if LocalBindPort uc <? 1 then [Printf (noPortLine uc)]
  else
    let l := NewUpstreamListener (service p) uc in
    CallNewUpstreamListener (service p) uc
      :: CallStartListener (upstreamString uc) l
      :: startEffects (upstreamString uc) l.

Definition upstreamThreads (p : Proxy) (uc : UpstreamConfig) : list Thread :=
  let uc := prepared p uc in
  if LocalBindPort uc <? 1 then []
  else startThreads (upstreamString uc) (NewUpstreamListener (service p) uc).

(** The snapshot once the public listener's defaults are applied in place. *)
Definition withPublicDefaults (c : Config) : Config :=
  {| ProxyID := ProxyID c;
     ProxiedServiceID := ProxiedServiceID c;
     PublicListener := publicApplyDefaults (PublicListener c);
     Upstreams := Upstreams c;
     DevCAFile := DevCAFile c;
     DevServiceCertFile := DevServiceCertFile c;
     DevServiceKeyFile := DevServiceKeyFile c |}.

Definition publicListenerOf (svc : Service) (c : Config) : Listener :=
  NewPublicListener (Some svc) (publicApplyDefaults (PublicListener c)).

Definition setupEffects (svc : Service) (c : Config) : list Effect :=
  CallNewService (ProxiedServiceID c)
    :: Go (ReadyLogger svc)
    :: CallNewPublicListener (Some svc) (publicApplyDefaults (PublicListener c))
    :: CallStartListener "public listener" (publicListenerOf svc c)
    :: startEffects "public listener" (publicListenerOf svc c).

Definition setupThreads (svc : Service) (c : Config) : list Thread :=
  Live (ReadyLogger svc) :: startThreads "public listener" (publicListenerOf svc c).

Lemma addTo_nil st : addTo st [] [] = st.
Proof. destruct st; unfold addTo; simpl. by rewrite !app_nil_r. Qed.

Lemma addTo_addTo st ts1 e1 ts2 e2 :
  addTo (addTo st ts1 e1) ts2 e2 = addTo st (ts1 ++ ts2) (e1 ++ e2).
Proof. unfold addTo; simpl. by rewrite !app_assoc. Qed.

Lemma startListener_eq name l st :
  startListener name l st
  = (Val None, addTo st (startThreads name l) (startEffects name l)).
Proof.
  unfold startListener, addTo, startThreads, startEffects.
  unfold mbind, M_bind, bind, printf, emit, go, ret; simpl.
  by rewrite <- !app_assoc.
Qed.

Lemma upstreamBody_eq uc st :
  upstreamBody startListener uc st
  = (Val tt, addTo st (upstreamThreads (proxy st) uc)
                      (upstreamEffects (proxy st) uc)).
Proof.
  unfold upstreamBody, upstreamThreads, upstreamEffects, prepared.
  unfold mbind, M_bind, bind, getProxy; simpl.
  destruct (LocalBindPort (upstreamApplyDefaults uc) <? 1) eqn:Hport.
  - unfold printf, emit, addTo; simpl. by rewrite app_nil_r.
  - unfold emit, startListener, printf, emit, go, ret, addTo,
      startThreads, startEffects; simpl.
    by rewrite <- !app_assoc.
Qed.

Lemma rangeUpstreams_eq ucs st :
  rangeUpstreams startListener ucs st
  = (Val tt, addTo st (flat_map (upstreamThreads (proxy st)) ucs)
                      (flat_map (upstreamEffects (proxy st)) ucs)).
Proof.
  revert st. induction ucs as [|uc ucs IH]; intros st; simpl.
  - unfold ret. by rewrite addTo_nil.
  - unfold mbind, M_bind, bind. rewrite upstreamBody_eq, IH.
    by rewrite addTo_addTo.
Qed.

Definition setSvc (st : State) (svc : Service) : State :=
  {| proxy := withService (proxy st) (Some svc);
     goroutines := goroutines st;
     trace := trace st |}.

(** The state in which the first snapshot's setup calls [p.startListener]
    for the public listener. *)
Definition beforePublicStart (st : State) (svc : Service) (c : Config) : State :=
  addTo (setSvc st svc)
    [Live (ReadyLogger svc)]
    [Printf "[DEBUG] got new config";
     CallNewService (ProxiedServiceID c);
     Go (ReadyLogger svc);
     CallNewPublicListener (Some svc) (publicApplyDefaults (PublicListener c));
     CallStartListener "public listener" (publicListenerOf svc c)].

Lemma onConfigWith_first start c st svc :
  NewService (ProxiedServiceID c) (client (proxy st)) = inl svc ->
  onConfigWith start None c st
  = match start "public listener" (publicListenerOf svc c)
            (beforePublicStart st svc c) with
    | (Val (Some e), st1) => (Return (Some e), st1)
    | (Val None, st1) =>
      (rangeUpstreams start (Upstreams c) ;; ret (withPublicDefaults c)) st1
    | (Return e, st1) => (Return e, st1)
    end.
Proof.
  intros Hsvc.
  unfold onConfigWith, initialSetup, beforePublicStart, publicListenerOf.
  unfold mbind, M_bind, bind, printf, emit, getProxy, go, setService; simpl.
  rewrite Hsvc; simpl.
  unfold addTo, setSvc, withService; simpl. rewrite <- !app_assoc; simpl.
  match goal with |- context [start ?n ?l ?s] => destruct (start n l s) as [[[e|]|e] st1] end;
    reflexivity.
Qed.

Lemma onConfig_first_fail c st e :
  NewService (ProxiedServiceID c) (client (proxy st)) = inr e ->
  onConfig None c st
  = (Return (Some e),
     addTo st [] [Printf "[DEBUG] got new config";
                  CallNewService (ProxiedServiceID c)]).
Proof.
  intros Herr. unfold onConfig, onConfigWith, initialSetup.
  unfold mbind, M_bind, bind, printf, emit, getProxy; simpl.
  rewrite Herr. unfold returnWith, addTo; simpl.
  by rewrite app_nil_r, <- app_assoc.
Qed.

Lemma onConfig_first_ok c st svc :
  NewService (ProxiedServiceID c) (client (proxy st)) = inl svc ->
  onConfig None c st
  = (Val (withPublicDefaults c),
     addTo (setSvc st svc)
       (setupThreads svc c
        ++ flat_map (upstreamThreads (withService (proxy st) (Some svc))) (Upstreams c))
       (Printf "[DEBUG] got new config" :: setupEffects svc c
        ++ flat_map (upstreamEffects (withService (proxy st) (Some svc))) (Upstreams c))).
Proof.
  intros Hsvc. unfold onConfig. rewrite (onConfigWith_first _ _ _ _ Hsvc).
  rewrite startListener_eq. unfold mbind, M_bind, bind.
  rewrite rangeUpstreams_eq. unfold ret, beforePublicStart.
  rewrite !addTo_addTo. reflexivity.
Qed.

Lemma onConfig_later old c st :
  onConfig (Some old) c st
  = (Val c,
     addTo st (flat_map (upstreamThreads (proxy st)) (Upstreams c))
       (Printf "[DEBUG] got new config"
        :: flat_map (upstreamEffects (proxy st)) (Upstreams c))).
Proof.
  unfold onConfig, onConfigWith. unfold mbind, M_bind, bind at 1 2.
  unfold printf, emit, ret at 1; simpl.
  unfold bind. rewrite rangeUpstreams_eq. unfold ret, addTo; simpl.
  by rewrite <- app_assoc.
Qed.

(** The whole of one pass through the config case, as additions to the
    state: for the local [cfg] and the received snapshot [c]. *)
Definition configEffects (p : Proxy) (cfg : option Config) (c : Config) : list Effect :=
  Printf "[DEBUG] got new config" ::
  match cfg with
  | Some _ => flat_map (upstreamEffects p) (Upstreams c)
  | None =>
    match NewService (ProxiedServiceID c) (client p) with
    | inr _ => [CallNewService (ProxiedServiceID c)]
    | inl svc =>
      setupEffects svc c
      ++ flat_map (upstreamEffects (withService p (Some svc))) (Upstreams c)
    end
  end.

Definition configThreads (p : Proxy) (cfg : option Config) (c : Config) : list Thread :=
  match cfg with
  | Some _ => flat_map (upstreamThreads p) (Upstreams c)
  | None =>
    match NewService (ProxiedServiceID c) (client p) with
    | inr _ => []
    | inl svc =>
      setupThreads svc c
      ++ flat_map (upstreamThreads (withService p (Some svc))) (Upstreams c)
    end
  end.

Definition configProxy (p : Proxy) (cfg : option Config) (c : Config) : Proxy :=
  match cfg with
  | Some _ => p
  | None =>
    match NewService (ProxiedServiceID c) (client p) with
    | inr _ => p
    | inl svc => withService p (Some svc)
    end
  end.

Definition configFrame (p : Proxy) (cfg : option Config) (c : Config) : ServeFrame :=
  match cfg with
  | Some _ => Looping (Some c)
  | None =>
    match NewService (ProxiedServiceID c) (client p) with
    | inr e => Returned (Some e)
    | inl _ => Looping (Some (withPublicDefaults c))
    end
  end.

Lemma exec_SelectConfig s cfg c rest :
  serve s = Looping cfg ->
  watch s = c :: rest ->
  exec SelectConfig s
  = Some {| state :=
              {| proxy := configProxy (proxy (state s)) cfg c;
                 goroutines := goroutines (state s)
                               ++ configThreads (proxy (state s)) cfg c;
                 trace := trace (state s)
                          ++ configEffects (proxy (state s)) cfg c |};
            watch := rest;
            serve := configFrame (proxy (state s)) cfg c |}.
Proof.
  intros Hserve Hwatch. unfold exec. rewrite Hserve, Hwatch.
  unfold configProxy, configThreads, configEffects, configFrame.
  destruct cfg as [old|].
  - by rewrite onConfig_later.
  - destruct (NewService (ProxiedServiceID c) (client (proxy (state s))))
      as [svc|e] eqn:Hsvc.
    + by rewrite (onConfig_first_ok _ _ _ Hsvc).
    + rewrite (onConfig_first_fail _ _ _ Hsvc). unfold addTo; simpl.
      by rewrite app_nil_r.
Qed.

Lemma exec_SelectConfig_enabled s s' :
  exec SelectConfig s = Some s' ->
  exists cfg c rest, serve s = Looping cfg /\ watch s = c :: rest.
Proof.
  unfold exec. destruct (serve s) as [cfg|e]; [|discriminate].
  destruct (watch s) as [|c rest]; [discriminate|]. eauto.
Qed.

(** ** Reading the closed forms *)

Lemma omap_flat_map {A B C} (g : B -> option C) (f : A -> list B) (l : list A) :
  omap g (flat_map f l) = flat_map (fun a => omap g (f a)) l.
Proof.
  induction l as [|a l IH]; simpl; [done|]. by rewrite omap_app, IH.
Qed.

Lemma flat_map_nil {A B} (f : A -> list B) (l : list A) :
  (forall a, f a = []) -> flat_map f l = [].
Proof. intros Hf. induction l as [|a l IH]; simpl; [done|]. by rewrite Hf, IH. Qed.

Lemma flat_map_ext_eq {A B} (f g : A -> list B) (l : list A) :
  (forall a, f a = g a) -> flat_map f l = flat_map g l.
Proof. intros Hf. induction l as [|a l IH]; simpl; [done|]. by rewrite Hf, IH. Qed.

Definition readyLoggers (tr : list Effect) : list Service :=
  omap (fun e => match e with Go (ReadyLogger svc) => Some svc | _ => None end) tr.

Definition valid (uc : UpstreamConfig) : bool := negb (LocalBindPort uc <? 1).

(** The start attempt of an upstream entry: name and listener. *)
Definition startOf (p : Proxy) (uc : UpstreamConfig) : string * Listener :=
  (upstreamString (prepared p uc),
   NewUpstreamListener (service p) (prepared p uc)).

Lemma starts_upstreamEffects p uc :
  starts (upstreamEffects p uc)
  = if valid (prepared p uc) then [startOf p uc] else [].
Proof.
  unfold upstreamEffects, valid, startOf.
  by destruct (LocalBindPort (prepared p uc) <? 1).
Qed.

Lemma closers_upstream p uc :
  (starts (upstreamEffects p uc)).*2 = liveClosers (upstreamThreads p uc).
Proof.
  unfold upstreamEffects, upstreamThreads.
  by destruct (LocalBindPort (prepared p uc) <? 1).
Qed.

Lemma closers_upstreams p ucs :
  (starts (flat_map (upstreamEffects p) ucs)).*2
  = liveClosers (flat_map (upstreamThreads p) ucs).
Proof.
  induction ucs as [|uc ucs IH]; simpl; [done|].
  unfold starts, liveClosers in *. rewrite !omap_app, fmap_app, IH.
  f_equal. apply closers_upstream.
Qed.

Lemma closers_config p cfg c :
  (starts (configEffects p cfg c)).*2 = liveClosers (configThreads p cfg c).
Proof.
  unfold configEffects, configThreads. destruct cfg as [old|].
  - apply (closers_upstreams p).
  - destruct (NewService _ _) as [svc|e]; [|done].
    change (starts (Printf "[DEBUG] got new config" :: ?l)) with (starts l).
    unfold starts, liveClosers. rewrite !omap_app, fmap_app.
    f_equal. apply closers_upstreams.
Qed.

Lemma upstream_quiet p uc :
  closes (upstreamEffects p uc) = [] /\
  stopFired (upstreamEffects p uc) = [] /\
  serviceCalls (upstreamEffects p uc) = [] /\
  publicBuilt (upstreamEffects p uc) = [] /\
  readyLoggers (upstreamEffects p uc) = [] /\
  doneClosers (upstreamThreads p uc) = [].
Proof.
  unfold upstreamEffects, upstreamThreads.
  by destruct (LocalBindPort (prepared p uc) <? 1).
Qed.

Lemma upstreams_quiet p ucs :
  closes (flat_map (upstreamEffects p) ucs) = [] /\
  stopFired (flat_map (upstreamEffects p) ucs) = [] /\
  serviceCalls (flat_map (upstreamEffects p) ucs) = [] /\
  publicBuilt (flat_map (upstreamEffects p) ucs) = [] /\
  readyLoggers (flat_map (upstreamEffects p) ucs) = [] /\
  doneClosers (flat_map (upstreamThreads p) ucs) = [].
Proof.
  unfold closes, stopFired, serviceCalls, publicBuilt, readyLoggers, doneClosers.
  rewrite !omap_flat_map.
  repeat split; apply flat_map_nil; intros uc; apply (upstream_quiet p uc).
Qed.

Lemma config_quiet p cfg c :
  closes (configEffects p cfg c) = [] /\
  stopFired (configEffects p cfg c) = [] /\
  doneClosers (configThreads p cfg c) = [].
Proof.
  unfold configEffects, configThreads. destruct cfg as [old|].
  - pose proof (upstreams_quiet p (Upstreams c)) as (?&?&?&?&?&?). done.
  - destruct (NewService _ _) as [svc|e]; [|done].
    pose proof (upstreams_quiet (withService p (Some svc)) (Upstreams c))
      as (Hc&Hs&_&_&_&Hd).
    unfold closes, stopFired, doneClosers in *. simpl.
    repeat split; assumption.
Qed.

(** A later snapshot performs none of the initial setup. *)
Lemma config_later_setup p old c :
  serviceCalls (configEffects p (Some old) c) = [] /\
  publicBuilt (configEffects p (Some old) c) = [] /\
  readyLoggers (configEffects p (Some old) c) = [].
Proof.
  pose proof (upstreams_quiet p (Upstreams c)) as (?&?&?&?&?&?). done.
Qed.

(** The first snapshot performs each part of it once, or stops after the
    failed identity-service construction. *)
Lemma config_first_setup p c :
  match NewService (ProxiedServiceID c) (client p) with
  | inl svc =>
    serviceCalls (configEffects p None c) = [ProxiedServiceID c] /\
    publicBuilt (configEffects p None c) = [publicApplyDefaults (PublicListener c)] /\
    readyLoggers (configEffects p None c) = [svc]
  | inr e =>
    serviceCalls (configEffects p None c) = [ProxiedServiceID c] /\
    publicBuilt (configEffects p None c) = [] /\
    readyLoggers (configEffects p None c) = [] /\
    starts (configEffects p None c) = [] /\
    upstreamBuilt (configEffects p None c) = [] /\
    launched (configEffects p None c) = []
  end.
Proof.
  unfold configEffects. destruct (NewService _ _) as [svc|e]; [|done].
  pose proof (upstreams_quiet (withService p (Some svc)) (Upstreams c))
    as (_&_&Hs&Hp&Hr&_).
  unfold serviceCalls, publicBuilt, readyLoggers in *. simpl.
  repeat split; f_equal; assumption.
Qed.

(** ** The step relation

    The same semantics as [exec], one rule per enabled action, with the
    sequential code replaced by its closed form. *)

Definition stoppedLine (name : string) (r : option error) : string :=
  match r with
  | Some err => "[ERR] " +:+ name +:+ " stopped with error: " +:+ errString err
  | None => "[INFO] " +:+ name +:+ " stopped"
  end.

Definition readyLines (svc : Service) : list Effect :=
  [Printf "[INFO] proxy loaded config and ready to serve";
   Printf ("[DEBUG] leaf: " +:+ leafURI svc +:+ " roots: " +:+ rootSubjects svc)].

Definition closeEffects (p : Proxy) : list Effect :=
  CloseStopChan :: match service p with
                   | Some svc => [ServiceClose svc]
                   | None => []
                   end.

Definition withStop (p : Proxy) (c : chan) : Proxy :=
  {| proxyID := proxyID p;
     client := client p;
     cfgWatcher := cfgWatcher p;
     stopChan := c;
     service := service p |}.

Inductive step (s : Sys) : Action -> Sys -> Prop :=
| step_deliver c :
    step s (Deliver c)
      (mkSys (state s) (watch s ++ [c]) (serve s))
| step_config cfg c rest :
    serve s = Looping cfg ->
    watch s = c :: rest ->
    step s SelectConfig
      (mkSys (mkState (configProxy (proxy (state s)) cfg c)
                (goroutines (state s) ++ configThreads (proxy (state s)) cfg c)
                (trace (state s) ++ configEffects (proxy (state s)) cfg c))
         rest (configFrame (proxy (state s)) cfg c))
| step_stop cfg :
    serve s = Looping cfg ->
    stopChan (proxy (state s)) = Closed ->
    step s SelectStop (mkSys (state s) (watch s) (Returned None))
| step_close :
    stopChan (proxy (state s)) = Open ->
    step s CallClose
      (mkSys (mkState (withStop (proxy (state s)) Closed)
                (goroutines (state s))
                (trace (state s) ++ closeEffects (proxy (state s))))
         (watch s) (serve s))
| step_ready i r svc :
    goroutines (state s) !! i = Some (Live (ReadyLogger svc)) ->
    step s (RunThread i r)
      (mkSys (mkState (proxy (state s))
                (<[i := Finished (ReadyLogger svc)]> (goroutines (state s)))
                (trace (state s) ++ readyLines svc))
         (watch s) (serve s))
| step_served i r name l :
    goroutines (state s) !! i = Some (Live (ListenerServe name l)) ->
    step s (RunThread i r)
      (mkSys (mkState (proxy (state s))
                (<[i := Finished (ListenerServe name l)]> (goroutines (state s)))
                (trace (state s) ++ [Printf (stoppedLine name r)]))
         (watch s) (serve s))
| step_closer i r l :
    goroutines (state s) !! i = Some (Live (ListenerCloser l)) ->
    stopChan (proxy (state s)) = Closed ->
    step s (RunThread i r)
      (mkSys (mkState (proxy (state s))
                (<[i := Finished (ListenerCloser l)]> (goroutines (state s)))
                (trace (state s) ++ [ListenerClose l]))
         (watch s) (serve s)).

Lemma exec_step a s s' : exec a s = Some s' -> step s a s'.
Proof.
  destruct a as [c| | | |i r]; intros Hexec.
  - injection Hexec as <-. constructor.
  - destruct (exec_SelectConfig_enabled _ _ Hexec) as (cfg & c & rest & Hs & Hw).
    rewrite (exec_SelectConfig _ _ _ _ Hs Hw) in Hexec.
    injection Hexec as <-. by constructor.
  - simpl in Hexec. destruct (serve s) as [cfg|] eqn:Hs; [|discriminate].
    destruct (stopChan (proxy (state s))) eqn:Hc; [discriminate|].
    injection Hexec as <-. by econstructor.
  - simpl in Hexec. unfold Close in Hexec.
    destruct (stopChan (proxy (state s))) eqn:Hc; [|discriminate].
    simpl in Hexec. injection Hexec as <-. by apply step_close.
  - simpl in Hexec.
    destruct (goroutines (state s) !! i) as [[g|g]|] eqn:Hi; try discriminate.
    destruct g as [svc|name l|l]; simpl in Hexec.
    + injection Hexec as <-.
      unfold markFinished; simpl. rewrite <- app_assoc. by apply step_ready.
    + destruct r as [err|]; simpl in Hexec; injection Hexec as <-.
      * by apply (step_served s i (Some err) name l).
      * by apply (step_served s i None name l).
    + destruct (stopChan (proxy (state s))) eqn:Hc; [discriminate|].
      simpl in Hexec. injection Hexec as <-. by apply step_closer.
Qed.

Lemma step_exec a s s' : step s a s' -> exec a s = Some s'.
Proof.
  intros Hstep. destruct Hstep; simpl.
  - done.
  - by apply exec_SelectConfig.
  - by rewrite H, H0.
  - unfold Close. by rewrite H.
  - rewrite H; simpl. unfold markFinished; simpl. by rewrite <- app_assoc.
  - rewrite H; simpl. by destruct r.
  - rewrite H; simpl. by rewrite H0.
Qed.

Lemma run_cons a sched s :
  run (a :: sched) s = s' ← exec a s; run sched s'.
Proof. done. Qed.

Lemma run_app sched1 sched2 s :
  run (sched1 ++ sched2) s = s' ← run sched1 s; run sched2 s'.
Proof.
  revert s. induction sched1 as [|a sched1 IH]; intros s; simpl; [done|].
  destruct (exec a s) as [s1|]; simpl; [apply IH|done].
Qed.

(** Induction along a schedule. *)
Lemma run_invariant (P : Sys -> Prop) :
  (forall a s s', P s -> step s a s' -> P s') ->
  forall sched s s', P s -> run sched s = Some s' -> P s'.
Proof.
  intros Hstep. induction sched as [|a sched IH]; intros s s' HP Hrun; simpl in Hrun.
  - by injection Hrun as <-.
  - destruct (exec a s) as [s1|] eqn:Hexec; [|discriminate].
    simpl in Hrun. eapply IH; [|exact Hrun].
    eapply Hstep; [exact HP|]. by apply exec_step.
Qed.

(** ** Invariants of the running system *)

Ltac readers :=
  unfold starts, closes, stopFired, serviceCalls, publicBuilt, upstreamBuilt,
    readyLoggers, launched, liveClosers, doneClosers in *.

Lemma omap_insert_None {A B} (f : A -> option B) (l : list A) i t t' :
  l !! i = Some t -> f t = None -> f t' = None ->
  omap f (<[i := t']> l) = omap f l.
Proof.
  revert i. induction l as [|a l IH]; intros [|i] Hi Ht Ht'; try done; simpl in *.
  - injection Hi as ->. by rewrite Ht, Ht'.
  - destruct (f a); [f_equal|]; by apply (IH i).
Qed.

Lemma omap_insert_Some {A B} (f : A -> option B) (l : list A) i t t' x :
  l !! i = Some t -> f t = Some x -> f t' = None ->
  omap f l ≡ₚ x :: omap f (<[i := t']> l).
Proof.
  revert i. induction l as [|a l IH]; intros [|i] Hi Ht Ht'; try done; simpl in *.
  - injection Hi as ->. by rewrite Ht, Ht'.
  - pose proof (IH i Hi Ht Ht') as IH'.
    destruct (f a) as [b|]; [|exact IH'].
    etrans; [apply Permutation_skip, IH'|]. apply Permutation_swap.
Qed.

Lemma closeEffects_quiet p :
  starts (closeEffects p) = [] /\ closes (closeEffects p) = [] /\
  serviceCalls (closeEffects p) = [] /\ publicBuilt (closeEffects p) = [] /\
  upstreamBuilt (closeEffects p) = [] /\ readyLoggers (closeEffects p) = [] /\
  launched (closeEffects p) = [] /\ stopFired (closeEffects p) = [()].
Proof. unfold closeEffects. by destruct (service p). Qed.

(** Every start attempt has its closer goroutine, which is either still
    waiting or has called [l.Close()]. *)
Definition closersInv (s : Sys) : Prop :=
  (starts (trace (state s))).*2
  ≡ₚ liveClosers (goroutines (state s)) ++ closes (trace (state s)).

Lemma closersInv_step a s s' : closersInv s -> step s a s' -> closersInv s'.
Proof.
  unfold closersInv. intros Hinv Hstep. destruct Hstep; simpl; try done.
  - pose proof (closers_config (proxy (state s)) cfg c) as Hc.
    pose proof (config_quiet (proxy (state s)) cfg c) as (Hq & _ & _).
    readers. rewrite !omap_app, fmap_app, Hc, Hq, app_nil_r, Hinv.
    rewrite <- !app_assoc. f_equiv. apply Permutation_app_comm.
  - pose proof (closeEffects_quiet (proxy (state s))) as (Hs & Hc & _).
    readers. by rewrite !omap_app, Hs, Hc, !app_nil_r.
  - readers. rewrite !omap_app, !app_nil_r.
    by rewrite (omap_insert_None _ _ _ _ _ H).
  - readers. rewrite !omap_app, !app_nil_r.
    by rewrite (omap_insert_None _ _ _ _ _ H).
  - readers. rewrite !omap_app, app_nil_r; simpl.
    rewrite Hinv.
    rewrite (omap_insert_Some _ _ _ _ (Finished (ListenerCloser l)) l H); [|done..].
    simpl. by rewrite app_assoc, <- Permutation_cons_append.
Qed.

(** The stop channel is closed by [Close] and by nothing else, and no
    listener is closed while it is open. *)
Definition stopInv (s : Sys) : Prop :=
  match stopChan (proxy (state s)) with
  | Open => closes (trace (state s)) = [] /\ stopFired (trace (state s)) = []
  | Closed => stopFired (trace (state s)) = [()]
  end.

Lemma configProxy_stop p cfg c : stopChan (configProxy p cfg c) = stopChan p.
Proof.
  unfold configProxy. destruct cfg; [done|]. by destruct (NewService _ _).
Qed.

Lemma stopInv_step a s s' : stopInv s -> step s a s' -> stopInv s'.
Proof.
  unfold stopInv. intros Hinv Hstep. destruct Hstep; simpl; try done.
  - rewrite configProxy_stop.
    pose proof (config_quiet (proxy (state s)) cfg c) as (Hc & Hs & _).
    readers. rewrite !omap_app, Hc, Hs, !app_nil_r. done.
  - rewrite H in Hinv. destruct Hinv as [_ Hf].
    pose proof (closeEffects_quiet (proxy (state s))) as (_&_&_&_&_&_&_&Hs).
    readers. by rewrite omap_app, Hf, Hs.
  - readers. rewrite !omap_app, !app_nil_r. done.
  - readers. rewrite !omap_app, !app_nil_r. done.
  - rewrite H0 in *. readers. rewrite !omap_app, app_nil_r. done.
Qed.

(** Only the config case of [Serve] constructs a service or a listener,
    starts a listener or launches a goroutine. *)
Lemma step_other_quiet a s s' :
  step s a s' -> a <> SelectConfig ->
  starts (trace (state s')) = starts (trace (state s)) /\
  launched (trace (state s')) = launched (trace (state s)) /\
  serviceCalls (trace (state s')) = serviceCalls (trace (state s)) /\
  publicBuilt (trace (state s')) = publicBuilt (trace (state s)) /\
  upstreamBuilt (trace (state s')) = upstreamBuilt (trace (state s)) /\
  readyLoggers (trace (state s')) = readyLoggers (trace (state s)).
Proof.
  intros Hstep Hne. destruct Hstep; simpl; try done.
  - pose proof (closeEffects_quiet (proxy (state s)))
      as (Q1 & _ & Q3 & Q4 & Q5 & Q6 & Q7 & _).
    readers. by rewrite !omap_app, Q1, Q3, Q4, Q5, Q6, Q7, !app_nil_r.
  - readers. rewrite !omap_app. simpl. by rewrite !app_nil_r.
  - readers. rewrite !omap_app. simpl. by rewrite !app_nil_r.
  - readers. rewrite !omap_app. simpl. by rewrite !app_nil_r.
Qed.

Lemma SelectConfig_or_not a : a = SelectConfig \/ a <> SelectConfig.
Proof. destruct a; auto. Qed.

Lemma configFrame_not_fresh p cfg c : configFrame p cfg c <> Looping None.
Proof.
  unfold configFrame. destruct cfg; [done|]. by destruct (NewService _ _).
Qed.

(** While no snapshot has been received, nothing has been done: no
    goroutine, no listener, no identity service, and the proxy's [service]
    and [client] are those it was built with. *)
Definition freshInv (p0 : Proxy) (s : Sys) : Prop :=
  serve s = Looping None ->
  goroutines (state s) = [] /\
  starts (trace (state s)) = [] /\
  launched (trace (state s)) = [] /\
  serviceCalls (trace (state s)) = [] /\
  publicBuilt (trace (state s)) = [] /\
  upstreamBuilt (trace (state s)) = [] /\
  readyLoggers (trace (state s)) = [] /\
  service (proxy (state s)) = service p0 /\
  client (proxy (state s)) = client p0.

Lemma freshInv_step p0 a s s' : freshInv p0 s -> step s a s' -> freshInv p0 s'.
Proof.
  unfold freshInv. intros Hinv Hstep Hfresh.
  destruct (SelectConfig_or_not a) as [->|Hne].
  - inversion Hstep; subst; simpl in *.
    by apply configFrame_not_fresh in Hfresh.
  - destruct (step_other_quiet _ _ _ Hstep Hne) as (-> & -> & -> & -> & -> & ->).
    destruct Hstep; simpl in *; try done.
    + by apply Hinv.
    + by apply Hinv.
    + destruct (Hinv Hfresh) as (Hg & _). by rewrite Hg in H.
    + destruct (Hinv Hfresh) as (Hg & _). by rewrite Hg in H.
    + destruct (Hinv Hfresh) as (Hg & _). by rewrite Hg in H.
Qed.

(** The initial setup happens at most once, and exactly once when [Serve]
    holds a config. *)
Definition setupInv (s : Sys) : Prop :=
  match serve s with
  | Looping None =>
    serviceCalls (trace (state s)) = [] /\
    publicBuilt (trace (state s)) = [] /\
    readyLoggers (trace (state s)) = []
  | Looping (Some _) =>
    length (serviceCalls (trace (state s))) = 1%nat /\
    length (publicBuilt (trace (state s))) = 1%nat /\
    length (readyLoggers (trace (state s))) = 1%nat
  | Returned _ =>
    (length (serviceCalls (trace (state s))) <= 1)%nat /\
    (length (publicBuilt (trace (state s))) <= 1)%nat /\
    (length (readyLoggers (trace (state s))) <= 1)%nat
  end.

Lemma setupInv_step a s s' : setupInv s -> step s a s' -> setupInv s'.
Proof.
  unfold setupInv. intros Hinv Hstep.
  destruct (SelectConfig_or_not a) as [->|Hne].
  - inversion Hstep as [|cfg c rest Hs Hw| | | | |]; subst; simpl.
    rewrite Hs in Hinv. destruct cfg as [old|].
    + pose proof (config_later_setup (proxy (state s)) old c) as (H1 & H2 & H3).
      readers. rewrite !omap_app, H1, H2, H3, !app_nil_r. done.
    + destruct Hinv as (H1 & H2 & H3).
      pose proof (config_first_setup (proxy (state s)) c) as Hfirst.
      unfold configFrame.
      destruct (NewService _ _) as [svc|e].
      * destruct Hfirst as (F1 & F2 & F3).
        readers. rewrite !omap_app, H1, H2, H3, F1, F2, F3. done.
      * destruct Hfirst as (F1 & F2 & F3 & _).
        readers. rewrite !omap_app, H1, H2, H3, F1, F2, F3. simpl. lia.
  - destruct (step_other_quiet _ _ _ Hstep Hne) as (_ & _ & -> & -> & _ & ->).
    destruct Hstep; simpl in *; try done.
    rewrite H in Hinv. destruct cfg as [old|]; destruct Hinv as (-> & -> & ->);
      simpl; lia.
Qed.

(** Once [Serve] has returned, its loop takes no further step. *)
Lemma returned_forever e post s s' :
  serve s = Returned e ->
  run post s = Some s' ->
  serve s' = Returned e /\ (SelectConfig ∉ post) /\ (SelectStop ∉ post).
Proof.
  revert s. induction post as [|a post IH]; intros s Hret Hrun; simpl in Hrun.
  - injection Hrun as <-. repeat split; [done|apply not_elem_of_nil..].
  - destruct (exec a s) as [s1|] eqn:Hexec; [|discriminate]. simpl in Hrun.
    apply exec_step in Hexec.
    assert (serve s1 = Returned e /\ a <> SelectConfig /\ a <> SelectStop)
      as (Hret1 & Hn1 & Hn2).
    { destruct Hexec; simpl; try done; congruence. }
    destruct (IH s1 Hret1 Hrun) as (? & ? & ?).
    repeat split; [done|..]; rewrite elem_of_cons; intros [?|?]; done.
Qed.

(** A system in which nothing was ever started and [Serve] has returned
    stays so. *)
Definition deadQuiet (s : Sys) : Prop :=
  (exists e, serve s = Returned e) /\
  goroutines (state s) = [] /\
  starts (trace (state s)) = [] /\
  launched (trace (state s)) = [] /\
  publicBuilt (trace (state s)) = [] /\
  upstreamBuilt (trace (state s)) = [].

Lemma deadQuiet_step a s s' : deadQuiet s -> step s a s' -> deadQuiet s'.
Proof.
  unfold deadQuiet. intros ([e He] & Hg & Hinv) Hstep.
  destruct (SelectConfig_or_not a) as [->|Hne].
  - inversion Hstep; subst. congruence.
  - destruct (step_other_quiet _ _ _ Hstep Hne) as (-> & -> & _ & -> & -> & _).
    destruct Hstep; simpl in *; try (by rewrite Hg in *); eauto; congruence.
Qed.

Lemma freshInv_init p w : freshInv p (initSys p w).
Proof. intros _. by repeat split. Qed.

Lemma freshInv_run p w sched s :
  run sched (initSys p w) = Some s -> freshInv p s.
Proof.
  apply (run_invariant (freshInv p)); [apply freshInv_step|apply freshInv_init].
Qed.

Lemma setupInv_run p w sched s :
  run sched (initSys p w) = Some s -> setupInv s.
Proof.
  apply (run_invariant setupInv); [apply setupInv_step|].
  by unfold setupInv; simpl.
Qed.

Lemma closersInv_run p w sched s :
  run sched (initSys p w) = Some s -> closersInv s.
Proof.
  apply (run_invariant closersInv); [apply closersInv_step|].
  by unfold closersInv; simpl.
Qed.

Lemma stopInv_run p w sched s :
  stopChan p = Open -> run sched (initSys p w) = Some s -> stopInv s.
Proof.
  intros Hopen. apply (run_invariant stopInv); [apply stopInv_step|].
  unfold stopInv; simpl. by rewrite Hopen.
Qed.

(** ** The reconfiguration loop: fatal errors and stop *)

(** C1.  When [connect.NewService] fails on the first snapshot (the local
    [cfg] is still nil), the step of [Serve] logs, calls [NewService] and
    returns that error.  From then on, along every schedule, [Serve] stays
    returned with that error, its loop takes no further step, and nothing
    was or is ever constructed, started or launched: no public or upstream
    listener, no goroutine. *)
Theorem identity_failure_is_fatal p w pre s c rest e post s' :
  run pre (initSys p w) = Some s ->
  serve s = Looping None ->
  watch s = c :: rest ->
  NewService (ProxiedServiceID c) (client (proxy (state s))) = inr e ->
  run (SelectConfig :: post) s = Some s' ->
  (exists s1, exec SelectConfig s = Some s1 /\
              serve s1 = Returned (Some e) /\
              trace (state s1)
              = trace (state s) ++ [Printf "[DEBUG] got new config";
                                    CallNewService (ProxiedServiceID c)]) /\
  serve s' = Returned (Some e) /\
  (SelectConfig ∉ post) /\ (SelectStop ∉ post) /\
  starts (trace (state s')) = [] /\
  publicBuilt (trace (state s')) = [] /\
  upstreamBuilt (trace (state s')) = [] /\
  launched (trace (state s')) = [] /\
  goroutines (state s') = [].
Proof.
  intros Hpre Hfresh Hwatch Herr Hrun.
  pose proof (freshInv_run _ _ _ _ Hpre Hfresh)
    as (Hg & Hst & Hl & _ & Hpb & Hub & _).
  rewrite run_cons, (exec_SelectConfig _ _ _ _ Hfresh Hwatch) in Hrun.
  set (s1 := mkSys _ _ _) in Hrun.
  change (run post s1 = Some s') in Hrun.
  assert (serve s1 = Returned (Some e)) as Hret.
  { subst s1; simpl. unfold configFrame. by rewrite Herr. }
  assert (trace (state s1)
          = trace (state s) ++ [Printf "[DEBUG] got new config";
                                CallNewService (ProxiedServiceID c)]) as Htr.
  { subst s1; simpl. unfold configEffects. by rewrite Herr. }
  assert (deadQuiet s1) as Hdead.
  { split; [eauto|]. rewrite Htr. subst s1; simpl.
    unfold configThreads. rewrite Herr, app_nil_r.
    readers. rewrite !omap_app, Hst, Hl, Hpb, Hub. done. }
  split.
  { exists s1. split; [|done]. by apply exec_SelectConfig. }
  destruct (returned_forever _ _ _ _ Hret Hrun) as (Hret' & Hn1 & Hn2).
  pose proof (run_invariant deadQuiet deadQuiet_step _ _ _ Hdead Hrun)
    as (_ & Hg' & Hs' & Hl' & Hp' & Hu').
  done.
Qed.

(** C6.  Whenever [Serve]'s select takes the stop case, [Serve] returns nil:
    in every schedule in which that step occurs, the stop channel was closed
    at that point, the step changes nothing but [Serve]'s frame, and [Serve]
    has returned nil from then on. *)
Theorem stop_returns_nil pre post s s' :
  run (pre ++ SelectStop :: post) s = Some s' ->
  (exists s1 s2, run pre s = Some s1 /\
                 exec SelectStop s1 = Some s2 /\
                 stopChan (proxy (state s1)) = Closed /\
                 state s2 = state s1 /\
                 serve s2 = Returned None) /\
  serve s' = Returned None.
Proof.
  intros Hrun. rewrite run_app in Hrun.
  destruct (run pre s) as [s1|] eqn:Hpre; [|discriminate].
  change (run (SelectStop :: post) s1 = Some s') in Hrun.
  rewrite run_cons in Hrun.
  destruct (exec SelectStop s1) as [s2|] eqn:Hstop; [|discriminate].
  change (run post s2 = Some s') in Hrun. pose proof (exec_step _ _ _ Hstop) as Hstep.
  inversion Hstep as [| |cfg Hs Hc| | | |]; subst.
  split.
  - exists s1, (mkSys (state s1) (watch s1) (Returned None)). by repeat split.
  - eapply returned_forever in Hrun as (-> & _); done.
Qed.

(** ** The listener start protocol *)

(** C2.  [startListener] blocks on nothing: on every state it logs one
    line, launches its two goroutines and returns nil, without touching the
    proxy.  What the listener's [Serve()] later returns [r], an error or
    nil, reaches nobody but the logger: the goroutine that ran it appends
    one line to the log and finishes, and the proxy, the frame of the
    proxy's own [Serve], the watcher's channel and the other goroutines are
    as before. *)
Theorem startListener_fire_and_forget name l s i r :
  goroutines (state s) !! i = Some (Live (ListenerServe name l)) ->
  (forall st,
     startListener name l st
     = (Val None,
        mkState (proxy st)
          (goroutines st ++ [Live (ListenerServe name l); Live (ListenerCloser l)])
          (trace st ++ [Printf ("[INFO] " +:+ name +:+ " starting on " +:+ BindAddr l);
                        Go (ListenerServe name l);
                        Go (ListenerCloser l)]))) /\
  exec (RunThread i r) s
  = Some (mkSys
            (mkState (proxy (state s))
               (<[i := Finished (ListenerServe name l)]> (goroutines (state s)))
               (trace (state s) ++ [Printf (stoppedLine name r)]))
            (watch s) (serve s)).
Proof.
  intros Hi. split.
  - intros st. apply startListener_eq.
  - apply step_exec. by apply step_served.
Qed.

(** C3.  On the first snapshot, if the call [p.startListener] for the public
    listener returns an error [e], the config case returns [e] from [Serve]
    in the very state the call left: nothing of the upstream loop runs.
    ([start] is the callee; with [startListener] itself the call never
    fails.) *)
Theorem public_start_failure_is_fatal start c st svc e st1 :
  NewService (ProxiedServiceID c) (client (proxy st)) = inl svc ->
  start "public listener" (publicListenerOf svc c) (beforePublicStart st svc c)
  = (Val (Some e), st1) ->
  onConfigWith start None c st = (Return (Some e), st1) /\
  trace (beforePublicStart st svc c)
  = trace st
    ++ [Printf "[DEBUG] got new config";
        CallNewService (ProxiedServiceID c);
        Go (ReadyLogger svc);
        CallNewPublicListener (Some svc) (publicApplyDefaults (PublicListener c));
        CallStartListener "public listener" (publicListenerOf svc c)].
Proof.
  intros Hsvc Hstart. by rewrite (onConfigWith_first _ _ _ _ Hsvc), Hstart.
Qed.

(** ** The upstream loop *)

(** [UpstreamConfig.applyDefaults] is declared in [config.go]; the defaults
    it fills in are timeouts and the like, and it leaves the bind port
    alone. *)
Hypothesis applyDefaults_keeps_port :
  forall uc, LocalBindPort (upstreamApplyDefaults uc) = LocalBindPort uc.

Lemma prepared_port p uc : LocalBindPort (prepared p uc) = LocalBindPort uc.
Proof. unfold prepared; simpl. apply applyDefaults_keeps_port. Qed.

Lemma upstreamBody_invalid start uc st :
  LocalBindPort uc < 1 ->
  upstreamBody start uc st
  = (Val tt, mkState (proxy st) (goroutines st)
               (trace st ++ [Printf (noPortLine (prepared (proxy st) uc))])).
Proof.
  intros Hport. unfold upstreamBody.
  unfold mbind, M_bind, bind, getProxy; simpl.
  destruct (Z.ltb_spec (LocalBindPort (upstreamApplyDefaults uc)) 1)
    as [_|Hge]; [done|].
  rewrite applyDefaults_keeps_port in Hge. lia.
Qed.

Lemma upstreamEffects_invalid p uc :
  LocalBindPort uc < 1 ->
  upstreamEffects p uc = [Printf (noPortLine (prepared p uc))] /\
  upstreamThreads p uc = [].
Proof.
  intros Hport. unfold upstreamEffects, upstreamThreads.
  destruct (Z.ltb_spec (LocalBindPort (prepared p uc)) 1) as [_|Hge]; [done|].
  rewrite prepared_port in Hge. lia.
Qed.

Lemma upstreamEffects_valid p uc :
  1 <= LocalBindPort uc ->
  upstreamEffects p uc
  = CallNewUpstreamListener (service p) (prepared p uc)
      :: CallStartListener (startOf p uc).1 (startOf p uc).2
      :: startEffects (startOf p uc).1 (startOf p uc).2.
Proof.
  intros Hport. unfold upstreamEffects.
  destruct (Z.ltb_spec (LocalBindPort (prepared p uc)) 1) as [Hlt|_]; [|done].
  rewrite prepared_port in Hlt. lia.
Qed.

(** The start attempts and listener constructions of one pass over the
    upstream list: one per entry with a bind port, in order. *)
Lemma upstreams_starts p ucs :
  starts (flat_map (upstreamEffects p) ucs)
  = startOf p <$> filter (fun uc => 1 <= LocalBindPort uc) ucs.
Proof.
  induction ucs as [|uc ucs IH]; simpl; [done|].
  unfold starts in *. rewrite omap_app, IH, filter_cons.
  destruct (decide (1 <= LocalBindPort uc)) as [Hok|Hno].
  - by rewrite (upstreamEffects_valid _ _ Hok).
  - by destruct (upstreamEffects_invalid p uc) as [-> _]; [lia|].
Qed.

Lemma upstreams_built p ucs :
  upstreamBuilt (flat_map (upstreamEffects p) ucs)
  = prepared p <$> filter (fun uc => 1 <= LocalBindPort uc) ucs.
Proof.
  induction ucs as [|uc ucs IH]; simpl; [done|].
  unfold upstreamBuilt in *. rewrite omap_app, IH, filter_cons.
  destruct (decide (1 <= LocalBindPort uc)) as [Hok|Hno].
  - by rewrite (upstreamEffects_valid _ _ Hok).
  - by destruct (upstreamEffects_invalid p uc) as [-> _]; [lia|].
Qed.

(** C4.  An upstream entry whose [LocalBindPort] is below 1 costs one log
    line and nothing else: whatever [p.startListener] is, the loop body
    neither constructs nor starts a listener for it and does not return from
    [Serve].  In the snapshot's pass the entries before and after it are
    processed as they would be without it, and [Serve] returns from the
    pass only when the identity service of a first snapshot could not be
    constructed. *)
Theorem invalid_upstream_is_skipped s cfg c rest pre uc post :
  serve s = Looping cfg ->
  watch s = c :: rest ->
  Upstreams c = pre ++ uc :: post ->
  LocalBindPort uc < 1 ->
  (forall start st,
     upstreamBody start uc st
     = (Val tt, mkState (proxy st) (goroutines st)
                  (trace st ++ [Printf (noPortLine (prepared (proxy st) uc))]))) /\
  exists s',
    exec SelectConfig s = Some s' /\
    (forall e, serve s' = Returned e ->
       cfg = None /\
       exists err, e = Some err /\
         NewService (ProxiedServiceID c) (client (proxy (state s))) = inr err) /\
    (forall cfg', serve s' = Looping cfg' ->
       exists front frontThreads,
         trace (state s')
         = trace (state s) ++ front
           ++ flat_map (upstreamEffects (proxy (state s'))) pre
           ++ Printf (noPortLine (prepared (proxy (state s')) uc))
           :: flat_map (upstreamEffects (proxy (state s'))) post /\
         goroutines (state s')
         = goroutines (state s) ++ frontThreads
           ++ flat_map (upstreamThreads (proxy (state s'))) pre
           ++ flat_map (upstreamThreads (proxy (state s'))) post /\
         upstreamBuilt front = [] /\
         liveClosers frontThreads = (starts front).*2).
Proof.
  intros Hserve Hwatch Hups Hport. split.
  { intros start st. by apply upstreamBody_invalid. }
  eexists. split; [by apply exec_SelectConfig|]. simpl.
  unfold configFrame, configEffects, configThreads, configProxy.
  assert (forall p,
    flat_map (upstreamEffects p) (Upstreams c)
    = flat_map (upstreamEffects p) pre
      ++ Printf (noPortLine (prepared p uc)) :: flat_map (upstreamEffects p) post)
    as Heff.
  { intros p. rewrite Hups, flat_map_app. simpl.
    by destruct (upstreamEffects_invalid p uc Hport) as [-> _]. }
  assert (forall p,
    flat_map (upstreamThreads p) (Upstreams c)
    = flat_map (upstreamThreads p) pre ++ flat_map (upstreamThreads p) post)
    as Hthr.
  { intros p. rewrite Hups, flat_map_app. simpl.
    by destruct (upstreamEffects_invalid p uc Hport) as [_ ->]. }
  destruct cfg as [old|].
  - split; [done|]. intros _ _.
    exists [Printf "[DEBUG] got new config"], [].
    rewrite Heff, Hthr. done.
  - destruct (NewService _ _) as [svc|err].
    + split; [done|]. intros _ _.
      exists (Printf "[DEBUG] got new config" :: setupEffects svc c),
             (setupThreads svc c).
      rewrite Heff, Hthr. done.
    + split; [|done]. intros e [= <-]. eauto.
Qed.

(** The start attempts of one pass through the config case. *)
Lemma config_starts p cfg c :
  starts (configEffects p cfg c)
  = match cfg with
    | Some _ =>
      startOf p <$> filter (fun uc => 1 <= LocalBindPort uc) (Upstreams c)
    | None =>
      match NewService (ProxiedServiceID c) (client p) with
      | inr _ => []
      | inl svc =>
        ("public listener", publicListenerOf svc c)
          :: (startOf (withService p (Some svc))
                <$> filter (fun uc => 1 <= LocalBindPort uc) (Upstreams c))
      end
    end.
Proof.
  unfold configEffects. destruct cfg as [old|].
  - apply (upstreams_starts p).
  - destruct (NewService _ _) as [svc|e]; [|done].
    change (starts (Printf "[DEBUG] got new config" :: ?l)) with (starts l).
    unfold starts. rewrite omap_app. simpl. f_equal.
    apply (upstreams_starts (withService p (Some svc))).
Qed.

(** The two goroutines [startListener] launches for a start attempt. *)
Definition startGoroutines (nl : string * Listener) : list Goroutine :=
  [ListenerServe nl.1 nl.2; ListenerCloser nl.2].

Lemma goroutines_upstreams p ucs :
  flat_map (upstreamThreads p) ucs
  = Live <$> flat_map startGoroutines (starts (flat_map (upstreamEffects p) ucs)) /\
  launched (flat_map (upstreamEffects p) ucs)
  = flat_map startGoroutines (starts (flat_map (upstreamEffects p) ucs)).
Proof.
  induction ucs as [|uc ucs [IH1 IH2]]; simpl; [done|].
  assert (upstreamThreads p uc
          = Live <$> flat_map startGoroutines (starts (upstreamEffects p uc)) /\
          launched (upstreamEffects p uc)
          = flat_map startGoroutines (starts (upstreamEffects p uc))) as [H1 H2].
  { unfold upstreamEffects, upstreamThreads.
    by destruct (LocalBindPort (prepared p uc) <? 1). }
  unfold starts, launched in *.
  rewrite !omap_app, flat_map_app, fmap_app, <- IH1, <- H1, IH2, H2. done.
Qed.

(** The readiness goroutine of a pass: launched by the setup only. *)
Definition readyOf (cfg : option Config) (svc : option Service) : list Goroutine :=
  match cfg, svc with
  | None, Some svc => [ReadyLogger svc]
  | _, _ => []
  end.

Lemma goroutines_config p cfg c :
  (exists cfg', configFrame p cfg c = Looping cfg') ->
  configThreads p cfg c
  = Live <$> (readyOf cfg (service (configProxy p cfg c))
              ++ flat_map startGoroutines (starts (configEffects p cfg c))) /\
  launched (configEffects p cfg c)
  = readyOf cfg (service (configProxy p cfg c))
    ++ flat_map startGoroutines (starts (configEffects p cfg c)).
Proof.
  intros [cfg' Hframe].
  unfold configThreads, configEffects, configProxy, configFrame in *.
  destruct cfg as [old|].
  - apply (goroutines_upstreams p).
  - destruct (NewService _ _) as [svc|e]; [|done].
    destruct (goroutines_upstreams (withService p (Some svc)) (Upstreams c))
      as [H1 H2].
    change (starts (Printf "[DEBUG] got new config" :: ?l)) with (starts l).
    change (launched (Printf "[DEBUG] got new config" :: ?l)) with (launched l).
    unfold starts, launched in *. rewrite !omap_app, flat_map_app, H1, H2.
    done.
Qed.

(** C5.  A pass of [Serve] over a snapshot that is not cut short by a failed
    identity service makes one start attempt per upstream entry with
    [LocalBindPort >= 1], in order and for no other upstream entry, after
    the public listener's on a first snapshot.  Each attempt is carried
    out: the pass launches, and leaves in the pool, the listener's
    goroutine and its closer for every one of them, and no goroutine
    besides (but the readiness goroutine of a first snapshot).  What was
    started before plays no part: when the same snapshot is delivered again
    next, the next pass makes the same start attempts again and launches
    the same goroutines once more. *)
Theorem valid_upstreams_start_once_per_snapshot s cfg c rest s1 :
  serve s = Looping cfg ->
  watch s = c :: rest ->
  exec SelectConfig s = Some s1 ->
  (exists cfg', serve s1 = Looping cfg') ->
  let p1 := proxy (state s1) in
  let ups := filter (fun uc => 1 <= LocalBindPort uc) (Upstreams c) in
  let attempts :=
    match cfg with
    | None => [("public listener",
                NewPublicListener (service p1)
                  (publicApplyDefaults (PublicListener c)))]
    | Some _ => []
    end ++ (startOf p1 <$> ups) in
  starts (trace (state s1))
  = starts (trace (state s))
    ++ match cfg with
       | None => [("public listener",
                   NewPublicListener (service p1)
                     (publicApplyDefaults (PublicListener c)))]
       | Some _ => []
       end
    ++ (startOf p1 <$> ups) /\
  upstreamBuilt (trace (state s1))
  = upstreamBuilt (trace (state s)) ++ (prepared p1 <$> ups) /\
  launched (trace (state s1))
  = launched (trace (state s))
    ++ readyOf cfg (service p1) ++ flat_map startGoroutines attempts /\
  goroutines (state s1)
  = goroutines (state s)
    ++ (Live <$> (readyOf cfg (service p1) ++ flat_map startGoroutines attempts)) /\
  forall rest' s2,
    rest = c :: rest' ->
    exec SelectConfig s1 = Some s2 ->
    starts (trace (state s2)) = starts (trace (state s1)) ++ (startOf p1 <$> ups) /\
    upstreamBuilt (trace (state s2))
    = upstreamBuilt (trace (state s1)) ++ (prepared p1 <$> ups) /\
    launched (trace (state s2))
    = launched (trace (state s1)) ++ flat_map startGoroutines (startOf p1 <$> ups) /\
    goroutines (state s2)
    = goroutines (state s1)
      ++ (Live <$> flat_map startGoroutines (startOf p1 <$> ups)).
Proof.
  intros Hserve Hwatch Hexec [cfg' Hloop] p1 ups attempts.
  rewrite (exec_SelectConfig _ _ _ _ Hserve Hwatch) in Hexec.
  injection Hexec as <-. cbn [state proxy trace goroutines serve watch] in *.
  assert (exists old, configFrame (proxy (state s)) cfg c = Looping (Some old)
          /\ p1 = configProxy (proxy (state s)) cfg c) as (old & Hframe & Hp1).
  { unfold configFrame in *. destruct cfg; [eauto|].
    destruct (NewService _ _); [eauto|done]. }
  assert (starts (configEffects (proxy (state s)) cfg c) = attempts
          /\ upstreamBuilt (configEffects (proxy (state s)) cfg c)
             = prepared p1 <$> ups) as [Hst Hub].
  { rewrite config_starts. subst attempts p1 ups.
    unfold configProxy, configEffects, configFrame in *.
    destruct cfg as [old'|].
    - split; [done|]. apply (upstreams_built (proxy (state s))).
    - destruct (NewService _ _) as [svc|e]; [|done]. split; [done|].
      change (upstreamBuilt (Printf "[DEBUG] got new config" :: ?l))
        with (upstreamBuilt l).
      unfold upstreamBuilt. rewrite omap_app. simpl.
      apply (upstreams_built (withService (proxy (state s)) (Some svc))). }
  destruct (goroutines_config (proxy (state s)) cfg c (ex_intro _ _ Hframe))
    as [Hthreads Hgo].
  rewrite Hst, <- Hp1 in Hthreads, Hgo.
  split; [|split; [|split; [|split]]].
  - unfold starts in *. by rewrite omap_app, Hst.
  - unfold upstreamBuilt in *. by rewrite omap_app, Hub.
  - unfold launched in *. by rewrite omap_app, Hgo.
  - by rewrite Hthreads.
  - intros rest' s2 -> Hexec2.
    rewrite (exec_SelectConfig _ (Some old) c rest') in Hexec2; [|done..].
    injection Hexec2 as <-. cbn [state proxy trace goroutines serve watch].
    fold p1.
    pose proof (config_starts p1 (Some old) c) as Hst2.
    pose proof (upstreams_built p1 (Upstreams c)) as Hub2.
    destruct (goroutines_config p1 (Some old) c (ex_intro _ _ eq_refl))
      as [Hthreads2 Hgo2].
    rewrite Hst2 in Hthreads2, Hgo2. fold ups in Hthreads2, Hgo2.
    split; [|split; [|split]].
    + unfold starts in *. by rewrite (omap_app _ (_ ++ _)), Hst2.
    + unfold upstreamBuilt in *. rewrite (omap_app _ (_ ++ _)). f_equal.
      exact Hub2.
    + unfold launched in *. rewrite (omap_app _ (_ ++ _)). f_equal. exact Hgo2.
    + f_equal. exact Hthreads2.
Qed.

Lemma setupInv_at_most_once s :
  setupInv s ->
  (length (serviceCalls (trace (state s))) <= 1)%nat /\
  (length (publicBuilt (trace (state s))) <= 1)%nat /\
  (length (readyLoggers (trace (state s))) <= 1)%nat.
Proof.
  unfold setupInv. destruct (serve s) as [[old|]|e]; [| |done].
  - intros (-> & -> & ->). lia.
  - intros (-> & -> & ->). simpl. lia.
Qed.

(** C7.  In a running proxy, a pass over a snapshot while [Serve] holds a
    config logs and walks the upstream list, and does nothing else: no
    identity service is constructed, no readiness goroutine launched, no
    public listener constructed, the proxy is unchanged.  These three
    happen in the pass over the first snapshot, where nothing of the kind
    happened before, and at most once in any execution.  After a pass the
    local [cfg] of [Serve] is the snapshot just processed (the first one
    with its public listener's defaults filled in, as the pass wrote them
    into it). *)
Theorem setup_only_on_first_snapshot p w pre s cfg c rest :
  run pre (initSys p w) = Some s ->
  serve s = Looping cfg ->
  watch s = c :: rest ->
  exists s',
    exec SelectConfig s = Some s' /\
    match cfg with
    | Some old =>
      serve s' = Looping (Some c) /\
      proxy (state s') = proxy (state s) /\
      trace (state s')
      = trace (state s)
        ++ Printf "[DEBUG] got new config"
        :: flat_map (upstreamEffects (proxy (state s))) (Upstreams c) /\
      serviceCalls (trace (state s')) = serviceCalls (trace (state s)) /\
      publicBuilt (trace (state s')) = publicBuilt (trace (state s)) /\
      readyLoggers (trace (state s')) = readyLoggers (trace (state s))
    | None =>
      serviceCalls (trace (state s)) = [] /\
      publicBuilt (trace (state s)) = [] /\
      readyLoggers (trace (state s)) = [] /\
      match NewService (ProxiedServiceID c) (client (proxy (state s))) with
      | inl svc =>
        serve s' = Looping (Some (withPublicDefaults c)) /\
        service (proxy (state s')) = Some svc /\
        trace (state s')
        = trace (state s)
          ++ Printf "[DEBUG] got new config"
          :: setupEffects svc c
          ++ flat_map (upstreamEffects (proxy (state s'))) (Upstreams c) /\
        serviceCalls (trace (state s')) = [ProxiedServiceID c] /\
        publicBuilt (trace (state s')) = [publicApplyDefaults (PublicListener c)] /\
        readyLoggers (trace (state s')) = [svc]
      | inr e => serve s' = Returned (Some e)
      end
    end /\
    forall post s'',
      run post s' = Some s'' ->
      (length (serviceCalls (trace (state s''))) <= 1)%nat /\
      (length (publicBuilt (trace (state s''))) <= 1)%nat /\
      (length (readyLoggers (trace (state s''))) <= 1)%nat.
Proof.
  intros Hpre Hserve Hwatch.
  pose proof (exec_SelectConfig _ _ _ _ Hserve Hwatch) as Hexec.
  eexists. split; [exact Hexec|]. split.
  - cbn [state proxy trace goroutines serve watch].
    pose proof (setupInv_run _ _ _ _ Hpre) as Hinv.
    unfold setupInv in Hinv. rewrite Hserve in Hinv.
    destruct cfg as [old|].
    + pose proof (config_later_setup (proxy (state s)) old c) as (H1 & H2 & H3).
      repeat split; readers; by rewrite omap_app, ?H1, ?H2, ?H3, app_nil_r.
    + destruct Hinv as (H1 & H2 & H3). repeat split; [done..|].
      pose proof (config_first_setup (proxy (state s)) c) as Hfirst.
      unfold configFrame, configProxy, configEffects in *.
      destruct (NewService _ _) as [svc|e]; [|done].
      destruct Hfirst as (F1 & F2 & F3).
      repeat split; readers; by rewrite omap_app, ?H1, ?H2, ?H3.
  - intros post s'' Hpost. apply setupInv_at_most_once.
    apply (setupInv_run p w (pre ++ SelectConfig :: post)).
    rewrite run_app, Hpre. change (run (SelectConfig :: post) s = Some s'').
    by rewrite run_cons, Hexec.
Qed.

(** C10.  The pass over the first snapshot constructs an identity service
    from the snapshot's [ProxiedServiceID] and stores it in [p.service]
    whatever that field held: nothing in the pass reads the old value.  A
    proxy built by [NewFromConfigFile] holds the service made from the
    certificate files until then, and loses it there. *)
Theorem first_snapshot_replaces_service s c rest svc :
  serve s = Looping None ->
  watch s = c :: rest ->
  NewService (ProxiedServiceID c) (client (proxy (state s))) = inl svc ->
  (exists s',
     exec SelectConfig s = Some s' /\
     proxy (state s') = withService (proxy (state s)) (Some svc) /\
     service (proxy (state s')) = Some svc /\
     serviceCalls (trace (state s'))
     = serviceCalls (trace (state s)) ++ [ProxiedServiceID c]) /\
  (forall cl file p0 w pre,
     NewFromConfigFile cl file = inl p0 ->
     run pre (initSys p0 w) = Some s ->
     exists cfg0 dev,
       ParseConfigFile file = inl cfg0 /\
       NewDevServiceFromCertFiles (ProxiedServiceID cfg0) (DevCAFile cfg0)
         (DevServiceCertFile cfg0) (DevServiceKeyFile cfg0) = inl dev /\
       service (proxy (state s)) = Some dev).
Proof.
  intros Hserve Hwatch Hsvc. split.
  - eexists. split; [by apply exec_SelectConfig|].
    cbn [state proxy trace goroutines serve watch].
    pose proof (config_first_setup (proxy (state s)) c) as Hfirst.
    unfold configProxy in *. rewrite Hsvc in *.
    destruct Hfirst as (F1 & _).
    repeat split. readers. by rewrite omap_app, F1.
  - intros cl file p0 w pre Hnew Hpre.
    pose proof (freshInv_run _ _ _ _ Hpre Hserve) as (_&_&_&_&_&_&_& -> & _).
    unfold NewFromConfigFile in Hnew.
    destruct (ParseConfigFile file) as [cfg0|e0]; [|done].
    destruct (NewDevServiceFromCertFiles _ _ _ _) as [dev|e1] eqn:Hdev; [|done].
    injection Hnew as <-. by exists cfg0, dev.
Qed.

(** ** Shutdown *)

Lemma omap_cons_lookup {A B} (f : A -> option B) (l : list A) x xs :
  omap f l = x :: xs -> exists i t, l !! i = Some t /\ f t = Some x.
Proof.
  induction l as [|a l IH]; [done|]. simpl.
  destruct (f a) as [b|] eqn:Hfa.
  - intros [= -> _]. by exists 0%nat, a.
  - intros Hl. destruct (IH Hl) as (i & t & Hi & Ht). by exists (S i), t.
Qed.

Lemma liveClosers_lookup ts l ls :
  liveClosers ts = l :: ls -> exists i, ts !! i = Some (Live (ListenerCloser l)).
Proof.
  intros Hl. apply omap_cons_lookup in Hl as (i & t & Hi & Ht).
  exists i. destruct t as [[| |l']|[| |l']]; try done. by injection Ht as ->.
Qed.

(** Only a closer goroutine calls [l.Close()], and it calls it once. *)
Lemma step_closes a s s' :
  step s a s' ->
  closes (trace (state s')) = closes (trace (state s)) \/
  exists i r l,
    a = RunThread i r /\
    goroutines (state s) !! i = Some (Live (ListenerCloser l)) /\
    stopChan (proxy (state s)) = Closed /\
    closes (trace (state s')) = closes (trace (state s)) ++ [l].
Proof.
  intros Hstep. destruct Hstep; simpl.
  - by left.
  - left. pose proof (config_quiet (proxy (state s)) cfg c) as (Hq & _).
    readers. by rewrite omap_app, Hq, app_nil_r.
  - by left.
  - left. pose proof (closeEffects_quiet (proxy (state s))) as (_ & Hq & _).
    readers. by rewrite omap_app, Hq, app_nil_r.
  - left. readers. by rewrite omap_app, app_nil_r.
  - left. readers. by rewrite omap_app, app_nil_r.
  - right. exists i, r, l. repeat split; [done..|].
    readers. by rewrite omap_app.
Qed.

(** A waiting closer goroutine keeps waiting until it is the one that runs,
    and a closed stop channel stays closed. *)
Lemma step_keeps_closer a s s' i l :
  step s a s' ->
  goroutines (state s) !! i = Some (Live (ListenerCloser l)) ->
  (stopChan (proxy (state s)) = Closed -> stopChan (proxy (state s')) = Closed) /\
  (goroutines (state s') !! i = Some (Live (ListenerCloser l)) \/
   exists r, a = RunThread i r).
Proof.
  intros Hstep Hi. destruct Hstep; simpl; try (by split; [|left]).
  - split; [by rewrite configProxy_stop|]. left. by apply lookup_app_l_Some.
  - split; [done|]. destruct (decide (i = i0)) as [->|Hne]; [by eauto|].
    left. by rewrite list_lookup_insert_ne.
  - split; [done|]. destruct (decide (i = i0)) as [->|Hne]; [by eauto|].
    left. by rewrite list_lookup_insert_ne.
  - split; [done|]. destruct (decide (i = i0)) as [->|Hne]; [by eauto|].
    left. by rewrite list_lookup_insert_ne.
Qed.

(** With the stop channel closed, the waiting closers can all be run, one
    after the other. *)
Lemma drain_closers n s :
  stopChan (proxy (state s)) = Closed ->
  length (liveClosers (goroutines (state s))) = n ->
  exists sched s',
    run sched s = Some s' /\
    length sched = n /\
    liveClosers (goroutines (state s')) = [] /\
    starts (trace (state s')) = starts (trace (state s)) /\
    closes (trace (state s'))
    ≡ₚ closes (trace (state s)) ++ liveClosers (goroutines (state s)).
Proof.
  revert s. induction n as [|n IH]; intros s Hstop Hlen.
  - exists [], s. apply nil_length_inv in Hlen. rewrite Hlen, app_nil_r. done.
  - destruct (liveClosers (goroutines (state s))) as [|l ls] eqn:Hlive; [done|].
    destruct (liveClosers_lookup _ _ _ Hlive) as [i Hi].
    pose proof (step_closer s i None l Hi Hstop) as Hstep.
    set (s1 := mkSys _ _ _) in Hstep.
    assert (liveClosers (goroutines (state s)) ≡ₚ l :: liveClosers (goroutines (state s1)))
      as Hperm.
    { subst s1; simpl. by apply (omap_insert_Some _ _ _ _ _ _ Hi). }
    assert (length (liveClosers (goroutines (state s1))) = n) as Hlen1.
    { apply (f_equal length) in Hlive. rewrite Hperm in Hlive.
      simpl in *. lia. }
    destruct (IH s1 Hstop Hlen1) as (sched & s' & Hrun & Hn & Hnil & Hst & Hcl).
    exists (RunThread i None :: sched), s'.
    rewrite run_cons, (step_exec _ _ _ Hstep). repeat split; [done|simpl; lia|done|..].
    + rewrite Hst. subst s1; simpl. readers. by rewrite omap_app, app_nil_r.
    + rewrite Hcl, <- Hlive, Hperm. subst s1; simpl.
      readers. rewrite omap_app. simpl.
      rewrite <- app_assoc. done.
Qed.

(** C8.  Called on a running proxy whose stop channel is still open,
    [Close] closes the channel, the one and only time in the execution, and
    then closes [p.service] if it is not nil, in that order; a second call
    panics.  Closing the channel enables the stop case of [Serve]'s select,
    which was disabled, and through it [Serve] returns nil.  For a proxy
    built by [New] that has received no snapshot, [p.service] is nil and
    [Close] does nothing but close the channel. *)
Theorem close_fires_stop_then_closes_service p w pre s :
  stopChan p = Open ->
  run pre (initSys p w) = Some s ->
  stopChan (proxy (state s)) = Open ->
  exists s',
    exec CallClose s = Some s' /\
    stopChan (proxy (state s')) = Closed /\
    trace (state s')
    = trace (state s)
      ++ CloseStopChan :: match service (proxy (state s)) with
                          | Some svc => [ServiceClose svc]
                          | None => []
                          end /\
    stopFired (trace (state s)) = [] /\
    stopFired (trace (state s')) = [()] /\
    exec CallClose s' = None /\
    (forall cfg,
       serve s = Looping cfg ->
       exec SelectStop s = None /\
       exists s'', exec SelectStop s' = Some s'' /\ serve s'' = Returned None) /\
    (forall cl id,
       New cl id = inl p ->
       serve s = Looping None ->
       service (proxy (state s)) = None /\
       trace (state s') = trace (state s) ++ [CloseStopChan]).
Proof.
  intros Hopen Hpre Hs.
  pose proof (step_close s Hs) as Hstep. set (s' := mkSys _ _ _) in Hstep.
  pose proof (stopInv_run _ _ _ _ Hopen Hpre) as Hinv.
  pose proof (stopInv_step _ _ _ Hinv Hstep) as Hinv'.
  unfold stopInv in Hinv, Hinv'. rewrite Hs in Hinv. destruct Hinv as [_ Hfired].
  exists s'. split; [by apply step_exec|].
  split; [done|]. split; [done|]. split; [done|].
  split; [by rewrite Hinv'|]. split.
  { simpl. unfold Close. done. }
  split.
  - intros cfg Hserve. split.
    + simpl. by rewrite Hserve, Hs.
    + exists (mkSys (state s') (watch s') (Returned None)).
      split; [|done]. simpl. by rewrite Hserve.
  - intros cl id Hnew Hfresh.
    pose proof (freshInv_run _ _ _ _ Hpre Hfresh) as (_&_&_&_&_&_&_& Hsvc & _).
    unfold New in Hnew. destruct (NewAgentConfigWatcher cl id); [|done].
    injection Hnew as <-. split; [done|].
    subst s'; simpl. unfold closeEffects. by rewrite Hsvc.
Qed.

(** C9.  In a running proxy every start attempt has its closer goroutine,
    launched by [startListener], which is waiting or has called
    [l.Close()]; the calls of [l.Close()] made so far and the waiting
    closers together are the listeners started so far, each as often as it
    was started.  A closer cannot run while the stop channel is open, so no
    listener is closed before the stop signal; once the channel is closed
    the closer can run, it then calls [l.Close()] once and never runs
    again, and until it runs no step of anybody disables or removes it.  No
    other step of the system calls [l.Close()].  From any state with the
    channel closed, running the waiting closers closes every started
    listener exactly as often as it was started.  (That each waiting closer
    does run is the scheduler's fairness.) *)
Theorem closer_is_the_only_way_to_stop_a_listener p w pre s :
  stopChan p = Open ->
  run pre (initSys p w) = Some s ->
  let ts := goroutines (state s) in
  let tr := trace (state s) in
  (starts tr).*2 ≡ₚ liveClosers ts ++ closes tr /\
  (forall name l st,
     goroutines (snd (startListener name l st))
     = goroutines st ++ [Live (ListenerServe name l); Live (ListenerCloser l)]) /\
  (stopChan (proxy (state s)) = Open -> closes tr = []) /\
  (forall i l r,
     ts !! i = Some (Live (ListenerCloser l)) ->
     match stopChan (proxy (state s)) with
     | Open => exec (RunThread i r) s = None
     | Closed =>
       exists s',
         exec (RunThread i r) s = Some s' /\
         trace (state s') = tr ++ [ListenerClose l] /\
         goroutines (state s') = <[i := Finished (ListenerCloser l)]> ts /\
         forall r', exec (RunThread i r') s' = None
     end) /\
  (forall a s' i l,
     exec a s = Some s' ->
     ts !! i = Some (Live (ListenerCloser l)) ->
     (stopChan (proxy (state s)) = Closed -> stopChan (proxy (state s')) = Closed) /\
     (goroutines (state s') !! i = Some (Live (ListenerCloser l)) \/
      exists r, a = RunThread i r)) /\
  (forall a s',
     exec a s = Some s' ->
     closes (trace (state s')) = closes tr \/
     exists i r l,
       a = RunThread i r /\
       ts !! i = Some (Live (ListenerCloser l)) /\
       stopChan (proxy (state s)) = Closed /\
       closes (trace (state s')) = closes tr ++ [l]) /\
  (stopChan (proxy (state s)) = Closed ->
   exists sched s',
     run sched s = Some s' /\
     length sched = length (liveClosers ts) /\
     liveClosers (goroutines (state s')) = [] /\
     starts (trace (state s')) = starts tr /\
     closes (trace (state s')) ≡ₚ (starts tr).*2).
Proof.
  intros Hopen Hpre ts tr.
  pose proof (closersInv_run _ _ _ _ Hpre) as Hinv. unfold closersInv in Hinv.
  pose proof (stopInv_run _ _ _ _ Hopen Hpre) as Hstop. unfold stopInv in Hstop.
  split; [exact Hinv|]. split.
  { intros name l st. by rewrite startListener_eq. }
  split.
  { intros Hs. rewrite Hs in Hstop. by destruct Hstop. }
  split.
  { intros i l r Hi. destruct (stopChan (proxy (state s))) eqn:Hs.
    - simpl. fold ts. rewrite Hi. simpl. by rewrite Hs.
    - pose proof (step_closer s i r l Hi Hs) as Hstep.
      eexists. split; [by apply step_exec|]. repeat split.
      intros r'. simpl.
      assert (i < length ts)%nat as Hlt by (by eapply lookup_lt_Some).
      by rewrite list_lookup_insert_eq. }
  split.
  { intros a s' i l Hexec Hi. apply exec_step in Hexec.
    by apply (step_keeps_closer a s s' i l). }
  split.
  { intros a s' Hexec. apply exec_step in Hexec. by apply step_closes. }
  intros Hs.
  destruct (drain_closers _ s Hs eq_refl) as (sched & s' & Hrun & Hn & Hnil & Hst & Hcl).
  exists sched, s'. repeat split; try done.
  rewrite Hcl. subst ts tr. rewrite Hinv. apply Permutation_app_comm.
Qed.

(** ** Further properties of the running proxy *)

Lemma step_stopChan a s s' :
  step s a s' ->
  (a = CallClose /\ stopChan (proxy (state s)) = Open
   /\ stopChan (proxy (state s')) = Closed) \/
  (a <> CallClose /\ stopChan (proxy (state s')) = stopChan (proxy (state s))).
Proof.
  intros Hstep. destruct Hstep; simpl; try (by right).
  - right. split; [done|]. apply configProxy_stop.
  - by left.
Qed.

Lemma closed_forever sched s s' :
  stopChan (proxy (state s)) = Closed ->
  run sched s = Some s' ->
  stopChan (proxy (state s')) = Closed /\ (CallClose ∉ sched).
Proof.
  revert s. induction sched as [|a sched IH]; intros s Hclosed Hrun.
  - injection Hrun as <-. split; [done|apply not_elem_of_nil].
  - rewrite run_cons in Hrun.
    destruct (exec a s) as [s1|] eqn:Hexec; [|discriminate].
    change (run sched s1 = Some s') in Hrun.
    destruct (step_stopChan _ _ _ (exec_step _ _ _ Hexec))
      as [(_ & Hopen & _)|(Hne & Hsame)]; [congruence|].
    rewrite Hclosed in Hsame. destruct (IH s1 Hsame Hrun) as (Hs' & Hnot).
    split; [done|]. rewrite elem_of_cons. intros [?|?]; done.
Qed.

Lemma open_run sched s s' :
  stopChan (proxy (state s)) = Open ->
  run sched s = Some s' ->
  match stopChan (proxy (state s')) with
  | Open => CallClose ∉ sched
  | Closed =>
    exists pre post,
      sched = pre ++ CallClose :: post /\ (CallClose ∉ pre) /\ (CallClose ∉ post)
  end.
Proof.
  revert s. induction sched as [|a sched IH]; intros s Hopen Hrun.
  - injection Hrun as <-. rewrite Hopen. apply not_elem_of_nil.
  - rewrite run_cons in Hrun.
    destruct (exec a s) as [s1|] eqn:Hexec; [|discriminate].
    change (run sched s1 = Some s') in Hrun.
    destruct (step_stopChan _ _ _ (exec_step _ _ _ Hexec))
      as [(-> & _ & Hclosed)|(Hne & Hsame)].
    + destruct (closed_forever _ _ _ Hclosed Hrun) as (-> & Hnot).
      exists [], sched. split; [done|]. split; [apply not_elem_of_nil|done].
    + rewrite Hopen in Hsame. pose proof (IH s1 Hsame Hrun) as Hrest.
      destruct (stopChan (proxy (state s'))).
      * rewrite elem_of_cons. intros [?|?]; done.
      * destruct Hrest as (pre & post & -> & Hpre & Hpost).
        exists (a :: pre), post. split; [done|]. split; [|done].
        rewrite elem_of_cons. intros [?|?]; done.
Qed.

(** X1.  A proxy built by [New] or by [NewFromConfigFile] has an open stop
    channel, and [Close] can run on it once: in every execution the stop
    channel is closed exactly when [Close] has been called, it stays closed
    whatever runs afterwards, and the schedule holds at most one call of
    [Close], a second one having no successor state (the panic of closing a
    closed channel).  The channel is closed in the trace as often. *)
Theorem constructed_proxy_closes_at_most_once cl p w sched s :
  (exists id, New cl id = inl p) \/ (exists file, NewFromConfigFile cl file = inl p) ->
  run sched (initSys p w) = Some s ->
  stopChan p = Open /\
  match stopChan (proxy (state s)) with
  | Open => (CallClose ∉ sched) /\ stopFired (trace (state s)) = []
  | Closed =>
    (exists pre post,
       sched = pre ++ CallClose :: post /\ (CallClose ∉ pre) /\ (CallClose ∉ post)) /\
    stopFired (trace (state s)) = [()] /\
    exec CallClose s = None
  end.
Proof.
  intros Hbuilt Hrun.
  assert (stopChan p = Open) as Hopen.
  { destruct Hbuilt as [[id Hnew]|[file Hnew]].
    - unfold New in Hnew. destruct (NewAgentConfigWatcher cl id); [|done].
      by injection Hnew as <-.
    - unfold NewFromConfigFile in Hnew.
      destruct (ParseConfigFile file); [|done].
      destruct (NewDevServiceFromCertFiles _ _ _ _); [|done].
      by injection Hnew as <-. }
  split; [done|].
  pose proof (stopInv_run _ _ _ _ Hopen Hrun) as Hinv. unfold stopInv in Hinv.
  pose proof (open_run sched (initSys p w) s Hopen Hrun) as Hsched.
  destruct (stopChan (proxy (state s))) eqn:Hs.
  - split; [done|]. by destruct Hinv.
  - split; [done|]. split; [done|]. simpl. unfold Close. by rewrite Hs.
Qed.

(** What [Serve] has returned tells what happened: nil only with the stop
    channel closed, an error only as the failure of [NewService] on the
    first snapshot, with nothing started. *)
Definition returnInv (p0 : Proxy) (s : Sys) : Prop :=
  match serve s with
  | Looping _ => True
  | Returned None => stopChan (proxy (state s)) = Closed
  | Returned (Some err) =>
    (exists id, serviceCalls (trace (state s)) = [id] /\
                NewService id (client p0) = inr err) /\
    goroutines (state s) = [] /\
    starts (trace (state s)) = [] /\
    publicBuilt (trace (state s)) = [] /\
    upstreamBuilt (trace (state s)) = []
  end.

Lemma returnInv_step p0 a s s' :
  freshInv p0 s -> returnInv p0 s -> step s a s' -> returnInv p0 s'.
Proof.
  unfold returnInv. intros Hfresh Hinv Hstep.
  destruct (SelectConfig_or_not a) as [->|Hne].
  - inversion Hstep as [|cfg c rest Hs Hw| | | | |]; subst; simpl.
    unfold configFrame. destruct cfg as [old|]; [done|].
    destruct (Hfresh Hs) as (Hg & Hst & _ & Hsc & Hpb & Hub & _ & _ & Hcl).
    pose proof (config_first_setup (proxy (state s)) c) as Hfirst.
    unfold configThreads.
    destruct (NewService (ProxiedServiceID c) (client (proxy (state s))))
      as [svc|e] eqn:Hsvc; [done|].
    destruct Hfirst as (F1 & F2 & _ & F4 & F5 & _).
    rewrite Hg. split; [|split; [done|]].
    + exists (ProxiedServiceID c). rewrite <- Hcl. split; [|done].
      readers. by rewrite omap_app, Hsc, F1.
    + readers. by rewrite !omap_app, Hst, Hpb, Hub, F2, F4, F5.
  - destruct (step_other_quiet _ _ _ Hstep Hne) as (-> & _ & -> & -> & -> & _).
    destruct (step_stopChan _ _ _ Hstep) as [(-> & _ & Hclosed)|(_ & Hsame)].
    + inversion Hstep; subst; simpl in *.
      destruct (serve s) as [|[err|]]; done.
    + destruct Hstep; simpl in *; try done; try congruence.
      * destruct (serve s) as [|[err|]]; [done| |done].
        destruct Hinv as (_ & Hg & _). by rewrite Hg in H.
      * destruct (serve s) as [|[err|]]; [done| |done].
        destruct Hinv as (_ & Hg & _). by rewrite Hg in H.
      * destruct (serve s) as [|[err|]]; [done| |done].
        destruct Hinv as (_ & Hg & _). by rewrite Hg in H.
Qed.

(** A callee cannot return from its caller: [p.startListener], whatever it
    does, hands a result back to the loop. *)
Definition handsBack (start : string -> Listener -> M (option error)) : Prop :=
  forall name l st, exists r st', start name l st = (Val r, st').

Lemma upstreamBody_continues start uc st :
  handsBack start -> exists st', upstreamBody start uc st = (Val tt, st').
Proof.
  intros Hstart. unfold upstreamBody.
  unfold mbind, M_bind, bind, getProxy; simpl.
  destruct (LocalBindPort (upstreamApplyDefaults uc) <? 1); [by eexists|].
  unfold emit; simpl.
  match goal with |- context [start ?n ?l ?s] =>
    destruct (Hstart n l s) as (r & st1 & ->) end.
  destruct r as [e|]; by eexists.
Qed.

Lemma rangeUpstreams_continues start ucs st :
  handsBack start -> exists st', rangeUpstreams start ucs st = (Val tt, st').
Proof.
  intros Hstart. revert st. induction ucs as [|uc ucs IH]; intros st; simpl.
  - by eexists.
  - unfold mbind, M_bind, bind.
    destruct (upstreamBody_continues start uc st Hstart) as (st1 & ->).
    apply IH.
Qed.

(** X3.  A failure to start an upstream listener is logged and nothing
    more: when [p.startListener] returns an error [e] for an entry with a
    bind port, the loop body appends the line "failed to start upstream" to
    what the call left and goes on.  So the upstream loop never returns
    from [Serve], and neither does the pass over a snapshot received after
    the first, whatever [p.startListener] answers. *)
Theorem upstream_start_failure_is_not_fatal start uc st e st1 old c :
  handsBack start ->
  1 <= LocalBindPort uc ->
  let uc' := prepared (proxy st) uc in
  let l := NewUpstreamListener (service (proxy st)) uc' in
  start (upstreamString uc') l
    (mkState (proxy st) (goroutines st)
       (trace st ++ [CallNewUpstreamListener (service (proxy st)) uc';
                     CallStartListener (upstreamString uc') l]))
  = (Val (Some e), st1) ->
  upstreamBody start uc st
  = (Val tt,
     mkState (proxy st1) (goroutines st1)
       (trace st1
        ++ [Printf ("[ERR] failed to start upstream " +:+ upstreamString uc'
                    +:+ ": " +:+ errString e)])) /\
  (forall ucs st0, exists st', rangeUpstreams start ucs st0 = (Val tt, st')) /\
  (forall st0, exists st', onConfigWith start (Some old) c st0 = (Val c, st')).
Proof.
  intros Hstart Hport uc' l Hfail. split; [|split].
  - unfold upstreamBody.
    unfold mbind, M_bind, bind, getProxy; simpl.
    destruct (Z.ltb_spec (LocalBindPort (upstreamApplyDefaults uc)) 1)
      as [Hlt|_].
    { rewrite applyDefaults_keeps_port in Hlt. lia. }
    unfold emit; simpl. rewrite <- app_assoc; simpl.
    subst uc' l. unfold prepared in Hfail. rewrite Hfail.
    reflexivity.
  - intros ucs st0. by apply rangeUpstreams_continues.
  - intros st0. unfold onConfigWith.
    unfold mbind, M_bind, bind at 1 2. unfold printf, emit, ret at 1; simpl.
    unfold bind.
    match goal with |- context [rangeUpstreams start ?u ?s] =>
      destruct (rangeUpstreams_continues start u s Hstart) as (st' & ->) end.
    by eexists.
Qed.

(** The function literal a pool entry runs or ran. *)
Definition threadBody (t : Thread) : Goroutine :=
  match t with
  | Live g => g
  | Finished g => g
  end.

Lemma pool_upstream p uc :
  launched (upstreamEffects p uc) = threadBody <$> upstreamThreads p uc /\
  length (upstreamThreads p uc)
  = (length (readyLoggers (upstreamEffects p uc))
     + 2 * length (starts (upstreamEffects p uc)))%nat.
Proof.
  unfold upstreamEffects, upstreamThreads.
  by destruct (LocalBindPort (prepared p uc) <? 1).
Qed.

Lemma pool_upstreams p ucs :
  launched (flat_map (upstreamEffects p) ucs)
  = threadBody <$> flat_map (upstreamThreads p) ucs /\
  length (flat_map (upstreamThreads p) ucs)
  = (length (readyLoggers (flat_map (upstreamEffects p) ucs))
     + 2 * length (starts (flat_map (upstreamEffects p) ucs)))%nat.
Proof.
  induction ucs as [|uc ucs [IH1 IH2]]; simpl; [done|].
  destruct (pool_upstream p uc) as [H1 H2].
  readers. rewrite !omap_app, fmap_app, !length_app, IH1, H1, IH2, H2.
  split; [done|lia].
Qed.

Lemma pool_config p cfg c :
  launched (configEffects p cfg c) = threadBody <$> configThreads p cfg c /\
  length (configThreads p cfg c)
  = (length (readyLoggers (configEffects p cfg c))
     + 2 * length (starts (configEffects p cfg c)))%nat.
Proof.
  unfold configEffects, configThreads. destruct cfg as [old|].
  - apply (pool_upstreams p).
  - destruct (NewService _ _) as [svc|e]; [|done].
    destruct (pool_upstreams (withService p (Some svc)) (Upstreams c)) as [H1 H2].
    change (launched (Printf "[DEBUG] got new config" :: ?l)) with (launched l).
    change (readyLoggers (Printf "[DEBUG] got new config" :: ?l))
      with (readyLoggers l).
    change (starts (Printf "[DEBUG] got new config" :: ?l)) with (starts l).
    readers. rewrite !omap_app, fmap_app, !length_app, H1, H2.
    split; [done|]. simpl. lia.
Qed.

Definition poolInv (s : Sys) : Prop :=
  launched (trace (state s)) = threadBody <$> goroutines (state s) /\
  length (goroutines (state s))
  = (length (readyLoggers (trace (state s)))
     + 2 * length (starts (trace (state s))))%nat.

Lemma fmap_insert_same {A B} (f : A -> B) (l : list A) i x y :
  l !! i = Some x -> f y = f x -> f <$> <[i := y]> l = f <$> l.
Proof.
  intros Hi Hf. rewrite list_fmap_insert, Hf.
  apply list_insert_id. by rewrite list_lookup_fmap, Hi.
Qed.

Lemma poolInv_step a s s' : poolInv s -> step s a s' -> poolInv s'.
Proof.
  unfold poolInv. intros [Hl Hn] Hstep.
  destruct (SelectConfig_or_not a) as [->|Hne].
  - inversion Hstep as [|cfg c rest Hs Hw| | | | |]; subst; simpl.
    destruct (pool_config (proxy (state s)) cfg c) as [H1 H2].
    readers. rewrite !omap_app, fmap_app, !length_app, Hl, H1, Hn, H2.
    split; [done|lia].
  - destruct (step_other_quiet _ _ _ Hstep Hne) as (-> & -> & _ & _ & _ & ->).
    destruct Hstep; simpl; try done.
    + by rewrite length_insert, (fmap_insert_same _ _ _ _ _ H).
    + by rewrite length_insert, (fmap_insert_same _ _ _ _ _ H).
    + by rewrite length_insert, (fmap_insert_same _ _ _ _ _ H).
Qed.

(** X4.  The goroutines of a running proxy are those its [go] statements
    launched, in that order, and there are two for every start attempt,
    listener's and closer's, besides the one readiness goroutine: a
    snapshot delivered again adds two goroutines per upstream entry with a
    bind port, and a goroutine that has finished is not launched anew. *)
Theorem two_goroutines_per_start p w sched s :
  run sched (initSys p w) = Some s ->
  launched (trace (state s)) = threadBody <$> goroutines (state s) /\
  length (goroutines (state s))
  = (length (readyLoggers (trace (state s)))
     + 2 * length (starts (trace (state s))))%nat /\
  (length (readyLoggers (trace (state s))) <= 1)%nat.
Proof.
  intros Hrun.
  assert (poolInv s) as [Hl Hn].
  { revert Hrun. apply (run_invariant poolInv); [apply poolInv_step|].
    by unfold poolInv. }
  pose proof (setupInv_at_most_once _ (setupInv_run _ _ _ _ Hrun)) as (_ & _ & Hr).
  done.
Qed.

(** The identity service each constructed listener was given. *)
Definition listenerServices (tr : list Effect) : list (option Service) :=
  omap (fun e => match e with
                 | CallNewPublicListener svc _ => Some svc
                 | CallNewUpstreamListener svc _ => Some svc
                 | _ => None
                 end) tr.

Lemma services_upstreams p ucs :
  Forall (eq (service p)) (listenerServices (flat_map (upstreamEffects p) ucs)).
Proof.
  induction ucs as [|uc ucs IH]; simpl; [constructor|].
  unfold listenerServices in *. rewrite omap_app. apply Forall_app. split; [|done].
  unfold upstreamEffects.
  destruct (LocalBindPort (prepared p uc) <? 1); simpl; repeat constructor.
Qed.

Lemma step_other_services a s s' :
  step s a s' -> a <> SelectConfig ->
  listenerServices (trace (state s')) = listenerServices (trace (state s)) /\
  service (proxy (state s')) = service (proxy (state s)).
Proof.
  intros Hstep Hne. destruct Hstep; simpl; try done.
  - unfold listenerServices, closeEffects. rewrite omap_app.
    destruct (service (proxy (state s))); simpl; by rewrite app_nil_r.
  - unfold listenerServices. rewrite omap_app; simpl. by rewrite app_nil_r.
  - unfold listenerServices. rewrite omap_app; simpl. by rewrite app_nil_r.
  - unfold listenerServices. rewrite omap_app; simpl. by rewrite app_nil_r.
Qed.

Lemma setup_readers svc c (tl : list Effect) :
  readyLoggers (Printf "[DEBUG] got new config" :: setupEffects svc c ++ tl)
  = svc :: readyLoggers tl /\
  listenerServices (Printf "[DEBUG] got new config" :: setupEffects svc c ++ tl)
  = Some svc :: listenerServices tl /\
  publicBuilt (Printf "[DEBUG] got new config" :: setupEffects svc c ++ tl)
  = publicApplyDefaults (PublicListener c) :: publicBuilt tl /\
  starts (Printf "[DEBUG] got new config" :: setupEffects svc c ++ tl)
  = ("public listener", publicListenerOf svc c) :: starts tl /\
  serviceCalls (Printf "[DEBUG] got new config" :: setupEffects svc c ++ tl)
  = ProxiedServiceID c :: serviceCalls tl.
Proof. done. Qed.

(** Before the setup nothing is constructed or started; after it the proxy
    holds the service the readiness goroutine waits on, every listener was
    given that service, and the public listener was started first. *)
Definition oneServiceInv (p0 : Proxy) (s : Sys) : Prop :=
  match readyLoggers (trace (state s)) with
  | [] =>
    listenerServices (trace (state s)) = [] /\ starts (trace (state s)) = []
  | svc :: _ =>
    (exists id, serviceCalls (trace (state s)) = [id] /\
                NewService id (client p0) = inl svc) /\
    service (proxy (state s)) = Some svc /\
    Forall (eq (Some svc)) (listenerServices (trace (state s))) /\
    exists pl rest,
      publicBuilt (trace (state s)) = [pl] /\
      starts (trace (state s))
      = ("public listener", NewPublicListener (Some svc) pl) :: rest
  end.

Lemma oneServiceInv_step p0 a s s' :
  freshInv p0 s -> setupInv s -> oneServiceInv p0 s -> step s a s' ->
  oneServiceInv p0 s'.
Proof.
  unfold oneServiceInv. intros Hfresh Hsetup Hinv Hstep.
  destruct (SelectConfig_or_not a) as [->|Hne].
  - inversion Hstep as [|cfg c rest Hs Hw| | | | |]; subst; simpl.
    unfold setupInv in Hsetup. rewrite Hs in Hsetup.
    destruct cfg as [old|].
    + destruct Hsetup as (_ & _ & Hlen).
      pose proof (config_later_setup (proxy (state s)) old c) as (H1 & H2 & H3).
      pose proof (services_upstreams (proxy (state s)) (Upstreams c)) as Hall.
      destruct (readyLoggers (trace (state s))) as [|svc rl] eqn:Hrl; [done|].
      destruct Hinv as ((id & Hid & Hnew) & Hsvc & Hsame & pl & rest' & Hpl & Hst).
      assert (readyLoggers (trace (state s) ++ configEffects (proxy (state s)) (Some old) c)
              = svc :: rl) as ->.
      { readers. by rewrite omap_app, Hrl, H3, app_nil_r. }
      split.
      { exists id. split; [|done]. readers. by rewrite omap_app, Hid, H1. }
      split; [done|]. split.
      * unfold listenerServices in *. rewrite omap_app. apply Forall_app.
        split; [done|]. rewrite <- Hsvc. exact Hall.
      * exists pl. eexists. split.
        -- readers. by rewrite omap_app, Hpl, H2.
        -- readers. rewrite omap_app, Hst. reflexivity.
    + destruct Hsetup as (Hsc & Hpb & Hrl). rewrite Hrl in Hinv.
      destruct Hinv as (Hls & Hst).
      destruct (Hfresh Hs) as (_ & _ & _ & _ & _ & _ & _ & _ & Hcl).
      unfold configEffects, configProxy.
      destruct (NewService (ProxiedServiceID c) (client (proxy (state s))))
        as [svc|e] eqn:Hnew.
      * pose proof (upstreams_quiet (withService (proxy (state s)) (Some svc))
                      (Upstreams c)) as (_ & _ & Hq & Hp & Hr & _).
        pose proof (services_upstreams (withService (proxy (state s)) (Some svc))
                      (Upstreams c)) as Hall.
        destruct (setup_readers svc c
                    (flat_map (upstreamEffects (withService (proxy (state s)) (Some svc)))
                       (Upstreams c))) as (R1 & R2 & R3 & R4 & R5).
        unfold readyLoggers at 1. rewrite omap_app.
        fold (readyLoggers (trace (state s))). rewrite Hrl.
        rewrite app_nil_l. fold (readyLoggers
          (Printf "[DEBUG] got new config" :: setupEffects svc c
           ++ flat_map (upstreamEffects (withService (proxy (state s)) (Some svc)))
                (Upstreams c))).
        rewrite R1. split.
        { exists (ProxiedServiceID c). rewrite <- Hcl. split; [|done].
          unfold serviceCalls at 1. rewrite omap_app.
          fold (serviceCalls (trace (state s))). rewrite Hsc, app_nil_l.
          fold (serviceCalls
            (Printf "[DEBUG] got new config" :: setupEffects svc c
             ++ flat_map (upstreamEffects (withService (proxy (state s)) (Some svc)))
                  (Upstreams c))).
          by rewrite R5, Hq. }
        split; [done|]. split.
        -- unfold listenerServices at 1. rewrite omap_app.
           fold (listenerServices (trace (state s))). rewrite Hls, app_nil_l.
           fold (listenerServices
             (Printf "[DEBUG] got new config" :: setupEffects svc c
              ++ flat_map (upstreamEffects (withService (proxy (state s)) (Some svc)))
                   (Upstreams c))).
           rewrite R2. by constructor.
        -- exists (publicApplyDefaults (PublicListener c)). eexists. split.
           ++ unfold publicBuilt at 1. rewrite omap_app.
              fold (publicBuilt (trace (state s))). rewrite Hpb, app_nil_l.
              fold (publicBuilt
                (Printf "[DEBUG] got new config" :: setupEffects svc c
                 ++ flat_map (upstreamEffects (withService (proxy (state s)) (Some svc)))
                      (Upstreams c))).
              by rewrite R3, Hp.
           ++ unfold starts at 1. rewrite omap_app.
              fold (starts (trace (state s))). rewrite Hst, app_nil_l.
              fold (starts
                (Printf "[DEBUG] got new config" :: setupEffects svc c
                 ++ flat_map (upstreamEffects (withService (proxy (state s)) (Some svc)))
                      (Upstreams c))).
              rewrite R4. reflexivity.
      * assert (readyLoggers
                  (trace (state s)
                   ++ [Printf "[DEBUG] got new config";
                       CallNewService (ProxiedServiceID c)]) = []) as ->.
        { readers. by rewrite omap_app, Hrl. }
        unfold listenerServices in *. readers.
        by rewrite !omap_app, Hls, Hst.
  - destruct (step_other_quiet _ _ _ Hstep Hne) as (-> & _ & -> & -> & _ & ->).
    by destruct (step_other_services _ _ _ Hstep Hne) as (-> & ->).
Qed.

(** X6.  Closing the proxy does not stop [Serve] from taking a snapshot
    that is waiting: with the stop channel closed and a snapshot on the
    watcher's channel both cases of the select are ready.  If the config
    case is taken the pass runs as ever and starts its listeners after
    [Close]; the channel stays closed, so each closer launched by the pass,
    like every waiting closer, can run at once and closes its listener. *)
Theorem snapshot_may_be_processed_after_close s cfg c rest :
  serve s = Looping cfg ->
  watch s = c :: rest ->
  stopChan (proxy (state s)) = Closed ->
  (exists s1, exec SelectStop s = Some s1 /\ serve s1 = Returned None) /\
  exists s2,
    exec SelectConfig s = Some s2 /\
    stopChan (proxy (state s2)) = Closed /\
    starts (trace (state s2))
    = starts (trace (state s)) ++ starts (configEffects (proxy (state s)) cfg c) /\
    liveClosers (goroutines (state s2))
    = liveClosers (goroutines (state s))
      ++ (starts (configEffects (proxy (state s)) cfg c)).*2 /\
    forall i l r,
      goroutines (state s2) !! i = Some (Live (ListenerCloser l)) ->
      exists s3,
        exec (RunThread i r) s2 = Some s3 /\
        closes (trace (state s3)) = closes (trace (state s2)) ++ [l].
Proof.
  intros Hserve Hwatch Hclosed. split.
  - exists (mkSys (state s) (watch s) (Returned None)).
    split; [|reflexivity]. simpl. by rewrite Hserve, Hclosed.
  - eexists. split; [by apply exec_SelectConfig|].
    cbn [state proxy trace goroutines serve watch].
    split; [by rewrite configProxy_stop|]. split.
    { unfold starts. by rewrite omap_app. }
    split.
    { rewrite closers_config. unfold liveClosers. by rewrite omap_app. }
    intros i l r Hi.
    eexists. split.
    + apply step_exec. apply step_closer; [exact Hi|].
      simpl. by rewrite configProxy_stop.
    + cbn [state proxy trace goroutines serve watch].
      unfold closes. by rewrite (omap_app _ (_ ++ _)).
Qed.

(** The snapshots a schedule sends, and how many it has [Serve] receive. *)
Definition delivered (sched : list Action) : list Config :=
  omap (fun a => match a with Deliver c => Some c | _ => None end) sched.

Definition received (sched : list Action) : nat :=
  length (omap (fun a => match a with SelectConfig => Some () | _ => None end) sched).

Lemma step_queue a s s' :
  step s a s' ->
  watch s' = drop (received [a]) (watch s ++ delivered [a]) /\
  match a with
  | SelectConfig =>
    exists c, watch s = c :: watch s' /\
      (serve s' = Looping (Some c) \/
       serve s' = Looping (Some (withPublicDefaults c)) \/
       exists e, serve s' = Returned e)
  | _ => serve s' = serve s \/ serve s' = Returned None
  end.
Proof.
  intros Hstep. destruct Hstep; simpl; rewrite ?app_nil_r; try (by auto).
  rewrite H0. simpl. rewrite drop_0. split; [done|].
  exists c. split; [done|]. unfold configFrame.
  destruct cfg; [by left|]. destruct (NewService _ _); eauto.
Qed.

(** X8.  [Serve] takes the snapshots in the order the watcher sent them,
    one per pass and none twice or skipped: after any schedule, what waits
    on the watcher's channel is what was waiting or was sent since, less as
    many from the front as [Serve] has received.  While [Serve] loops, its
    local [cfg] is the last snapshot received (the first one with the
    public listener's defaults filled in), or nil if it has received
    none. *)
Theorem snapshots_are_taken_in_order sched s s' :
  run sched s = Some s' ->
  watch s' = drop (received sched) (watch s ++ delivered sched) /\
  (received sched <= length (watch s ++ delivered sched))%nat /\
  match received sched with
  | O => serve s' = serve s \/ serve s' = Returned None
  | S n =>
    exists c, (watch s ++ delivered sched) !! n = Some c /\
      (serve s' = Looping (Some c) \/
       serve s' = Looping (Some (withPublicDefaults c)) \/
       exists e, serve s' = Returned e)
  end.
Proof.
  revert s. induction sched as [|a sched IH]; intros s Hrun.
  - injection Hrun as <-. unfold received, delivered. simpl.
    rewrite app_nil_r, drop_0. split; [done|]. split; [lia|]. by left.
  - rewrite run_cons in Hrun.
    destruct (exec a s) as [s1|] eqn:Hexec; [|discriminate].
    change (run sched s1 = Some s') in Hrun.
    destruct (IH s1 Hrun) as (Hq & Hlen & Hcfg).
    destruct (step_queue _ _ _ (exec_step _ _ _ Hexec)) as (Hq1 & Hs1).
    assert (forall f1 f2 : ServeFrame,
              (f1 = serve s \/ f1 = Returned None) ->
              (f2 = f1 \/ f2 = Returned None) ->
              f2 = serve s \/ f2 = Returned None) as Hframes.
    { intros f1 f2 [-> | ->] [-> | ->]; auto. }
    destruct a as [c0| | | |i r].
    + change (received (Deliver c0 :: sched)) with (received sched).
      change (delivered (Deliver c0 :: sched)) with (c0 :: delivered sched).
      unfold received, delivered in Hq1; simpl in Hq1.
      rewrite drop_0 in Hq1.
      rewrite Hq1, <- app_assoc in Hq, Hlen, Hcfg.
      split; [done|]. split; [done|].
      destruct (received sched) as [|n]; [|done].
      apply (Hframes (serve s1)); [destruct Hs1; auto|done].
    + change (received (SelectConfig :: sched)) with (S (received sched)).
      change (delivered (SelectConfig :: sched)) with (delivered sched).
      destruct Hs1 as (c & Hw & Hs1). rewrite Hw.
      split; [done|]. split; [simpl; lia|].
      destruct (received sched) as [|n].
      * exists c. split; [done|].
        destruct Hcfg as [-> | ->]; [done|]. right. right. by eexists.
      * exact Hcfg.
    + change (received (SelectStop :: sched)) with (received sched).
      change (delivered (SelectStop :: sched)) with (delivered sched).
      unfold received, delivered in Hq1; simpl in Hq1.
      rewrite app_nil_r, drop_0 in Hq1. rewrite Hq1 in Hq, Hlen, Hcfg.
      split; [done|]. split; [done|].
      destruct (received sched) as [|n]; [|done].
      apply (Hframes (serve s1)); [destruct Hs1; auto|done].
    + change (received (CallClose :: sched)) with (received sched).
      change (delivered (CallClose :: sched)) with (delivered sched).
      unfold received, delivered in Hq1; simpl in Hq1.
      rewrite app_nil_r, drop_0 in Hq1. rewrite Hq1 in Hq, Hlen, Hcfg.
      split; [done|]. split; [done|].
      destruct (received sched) as [|n]; [|done].
      apply (Hframes (serve s1)); [destruct Hs1; auto|done].
    + change (received (RunThread i r :: sched)) with (received sched).
      change (delivered (RunThread i r :: sched)) with (delivered sched).
      unfold received, delivered in Hq1; simpl in Hq1.
      rewrite app_nil_r, drop_0 in Hq1. rewrite Hq1 in Hq, Hlen, Hcfg.
      split; [done|]. split; [done|].
      destruct (received sched) as [|n]; [|done].
      apply (Hframes (serve s1)); [destruct Hs1; auto|done].
Qed.

(** ** Which snapshot the identity service comes from *)

(** Once [Serve] has left its initial frame it does not come back to it,
    and calls [NewService] no more. *)
Lemma serviceCalls_settled sched s s' :
  serve s <> Looping None ->
  run sched s = Some s' ->
  serviceCalls (trace (state s')) = serviceCalls (trace (state s)).
Proof.
  revert s. induction sched as [|a sched IH]; intros s Hleft Hrun.
  - by injection Hrun as <-.
  - rewrite run_cons in Hrun.
    destruct (exec a s) as [s1|] eqn:Hexec; [|discriminate].
    change (run sched s1 = Some s') in Hrun.
    pose proof (exec_step _ _ _ Hexec) as Hstep.
    assert (serve s1 <> Looping None
            /\ serviceCalls (trace (state s1)) = serviceCalls (trace (state s)))
      as [Hleft1 Hsame].
    { destruct (SelectConfig_or_not a) as [->|Hne].
      - inversion Hstep as [|cfg c rest Hs Hw| | | | |]; subst; simpl.
        split; [apply configFrame_not_fresh|].
        destruct cfg as [old|]; [|congruence].
        pose proof (config_later_setup (proxy (state s)) old c) as (H1 & _).
        unfold serviceCalls in *. by rewrite omap_app, H1, app_nil_r.
      - destruct (step_other_quiet _ _ _ Hstep Hne) as (_ & _ & -> & _).
        split; [|done]. destruct Hstep; simpl; done. }
    rewrite <- Hsame. by apply IH.
Qed.

(** The one call of [NewService], if any was made, was for the first
    snapshot [Serve] received: the first that waited on the watcher's
    channel or, none waiting, the first the watcher sent. *)
Lemma first_id_run sched s s' :
  serve s = Looping None ->
  serviceCalls (trace (state s)) = [] ->
  run sched s = Some s' ->
  serviceCalls (trace (state s')) = [] \/
  exists c,
    (watch s ++ delivered sched) !! 0%nat = Some c /\
    serviceCalls (trace (state s')) = [ProxiedServiceID c].
Proof.
  revert s. induction sched as [|a sched IH]; intros s Hfresh Hnone Hrun.
  - injection Hrun as <-. by left.
  - rewrite run_cons in Hrun.
    destruct (exec a s) as [s1|] eqn:Hexec; [|discriminate].
    change (run sched s1 = Some s') in Hrun.
    pose proof (exec_step _ _ _ Hexec) as Hstep.
    destruct (SelectConfig_or_not a) as [->|Hne].
    + inversion Hstep as [|cfg c rest Hs Hw| | | | |]; subst.
      assert (cfg = None) as -> by congruence.
      right. exists c. rewrite Hw. split; [done|].
      match type of Hrun with
      | run _ ?s1 = _ =>
        assert (serviceCalls (trace (state s')) = serviceCalls (trace (state s1)))
          as -> by (apply (serviceCalls_settled sched);
                    [cbn [serve]; apply configFrame_not_fresh|exact Hrun])
      end.
      cbn [state trace].
      pose proof (config_first_setup (proxy (state s)) c) as Hfirst.
      unfold serviceCalls in *. rewrite omap_app, Hnone.
      destruct (NewService _ _); by destruct Hfirst as (-> & _).
    + destruct (step_other_quiet _ _ _ Hstep Hne) as (_ & _ & Hsame & _).
      rewrite <- Hsame in Hnone.
      destruct Hstep; try done.
      * change (delivered (Deliver c :: sched)) with (c :: delivered sched).
        destruct (IH (mkSys (state s) (watch s ++ [c]) (serve s))
                    Hfresh Hnone Hrun) as [?|(c' & Hhead & ?)]; [by left|].
        right. exists c'. split; [|done].
        cbn [watch] in Hhead. by rewrite <- app_assoc in Hhead.
      * left. rewrite <- Hnone.
        by apply (serviceCalls_settled sched
                    (mkSys (state s) (watch s) (Returned None))).
      * match type of Hrun with
        | run _ ?s1 = _ => exact (IH s1 Hfresh Hnone Hrun)
        end.
      * match type of Hrun with
        | run _ ?s1 = _ => exact (IH s1 Hfresh Hnone Hrun)
        end.
      * match type of Hrun with
        | run _ ?s1 = _ => exact (IH s1 Hfresh Hnone Hrun)
        end.
      * match type of Hrun with
        | run _ ?s1 = _ => exact (IH s1 Hfresh Hnone Hrun)
        end.
Qed.

(** X2.  In every execution, if [Serve] has returned nil then the stop
    channel is closed, so [Close] was called; and if it has returned an
    error then that error is what [NewService] answered for the
    [ProxiedServiceID] of the first snapshot [Serve] received, which is the
    only call of [NewService] made, and no listener was constructed or
    started and no goroutine launched.  In particular [Serve] returns no
    error once a snapshot has been applied. *)
Theorem serve_returns_nil_or_identity_error p w sched s e :
  run sched (initSys p w) = Some s ->
  serve s = Returned e ->
  match e with
  | None => stopChan (proxy (state s)) = Closed
  | Some err =>
    (exists c,
       (w ++ delivered sched) !! 0%nat = Some c /\
       serviceCalls (trace (state s)) = [ProxiedServiceID c] /\
       NewService (ProxiedServiceID c) (client p) = inr err) /\
    goroutines (state s) = [] /\
    starts (trace (state s)) = [] /\
    launched (trace (state s)) = [] /\
    publicBuilt (trace (state s)) = [] /\
    upstreamBuilt (trace (state s)) = []
  end.
Proof.
  intros Hrun Hret.
  assert (freshInv p s /\ returnInv p s) as [_ Hinv].
  { revert Hrun.
    apply (run_invariant (fun s => freshInv p s /\ returnInv p s)).
    - intros a s0 s1 [Hf Hr] Hstep. split.
      + by eapply freshInv_step.
      + by eapply returnInv_step.
    - split; [apply freshInv_init|]. by unfold returnInv. }
  unfold returnInv in Hinv. rewrite Hret in Hinv.
  destruct e as [err|]; [|done].
  destruct Hinv as ((id & Hid & Hnew) & Hg & Hst & Hpb & Hub).
  destruct (first_id_run sched (initSys p w) s eq_refl eq_refl Hrun)
    as [Hnone|(c & Hhead & Hc)]; [congruence|].
  assert (id = ProxiedServiceID c) as -> by congruence.
  split; [by exists c|]. split; [done|]. split; [done|]. split; [|done].
  pose proof (run_invariant poolInv poolInv_step _ _ _
                (conj eq_refl eq_refl : poolInv (initSys p w)) Hrun) as [Hl _].
  by rewrite Hl, Hg.
Qed.

(** A listener constructed with the service [svc], and a goroutine that
    works for that service alone. *)
Definition madeWith (svc : Service) (l : Listener) : Prop :=
  (exists pl, l = NewPublicListener (Some svc) pl) \/
  (exists uc, l = NewUpstreamListener (Some svc) uc).

Definition worksFor (svc : Service) (t : Thread) : Prop :=
  match threadBody t with
  | ReadyLogger svc' => svc' = svc
  | ListenerServe _ l => madeWith svc l
  | ListenerCloser l => madeWith svc l
  end.

Lemma worksFor_upstreams p svc ucs :
  service p = Some svc ->
  Forall (worksFor svc) (flat_map (upstreamThreads p) ucs).
Proof.
  intros Hsvc. induction ucs as [|uc ucs IH]; simpl; [constructor|].
  apply Forall_app. split; [|done].
  unfold upstreamThreads.
  destruct (LocalBindPort (prepared p uc) <? 1); [constructor|].
  rewrite Hsvc. unfold startThreads.
  constructor; [|constructor; [|constructor]];
    unfold worksFor; simpl; right; by eexists.
Qed.

(** The pool is empty until the setup has run, and then every goroutine in
    it belongs to the one service. *)
Definition poolServiceInv (s : Sys) : Prop :=
  match readyLoggers (trace (state s)) with
  | [] => goroutines (state s) = []
  | svc :: _ => Forall (worksFor svc) (goroutines (state s))
  end.

Lemma poolServiceInv_step p0 a s s' :
  setupInv s -> oneServiceInv p0 s -> poolServiceInv s -> step s a s' ->
  poolServiceInv s'.
Proof.
  unfold poolServiceInv. intros Hsetup Hone Hinv Hstep.
  destruct (SelectConfig_or_not a) as [->|Hne].
  - inversion Hstep as [|cfg c rest Hs Hw| | | | |]; subst; simpl.
    unfold setupInv in Hsetup. rewrite Hs in Hsetup.
    unfold oneServiceInv in Hone.
    destruct cfg as [old|].
    + destruct Hsetup as (_ & _ & Hlen).
      pose proof (config_later_setup (proxy (state s)) old c) as (_ & _ & H3).
      destruct (readyLoggers (trace (state s))) as [|svc rl] eqn:Hrl; [done|].
      destruct Hone as (_ & Hsvc & _).
      assert (readyLoggers (trace (state s) ++ configEffects (proxy (state s)) (Some old) c)
              = svc :: rl) as ->.
      { unfold readyLoggers in *. by rewrite omap_app, Hrl, H3, app_nil_r. }
      apply Forall_app. split; [done|]. by apply worksFor_upstreams.
    + destruct Hsetup as (_ & _ & Hrl). rewrite Hrl in Hinv. rewrite Hinv.
      unfold configEffects, configThreads.
      destruct (NewService _ _) as [svc|e].
      * pose proof (upstreams_quiet (withService (proxy (state s)) (Some svc))
                      (Upstreams c)) as (_ & _ & _ & _ & Hr & _).
        destruct (setup_readers svc c
                    (flat_map (upstreamEffects (withService (proxy (state s)) (Some svc)))
                       (Upstreams c))) as (R1 & _).
        unfold readyLoggers at 1. rewrite omap_app.
        fold (readyLoggers (trace (state s))). rewrite Hrl, app_nil_l.
        fold (readyLoggers
          (Printf "[DEBUG] got new config" :: setupEffects svc c
           ++ flat_map (upstreamEffects (withService (proxy (state s)) (Some svc)))
                (Upstreams c))).
        rewrite R1, app_nil_l. apply Forall_app. split.
        -- unfold setupThreads, startThreads.
           constructor; [done|].
           constructor; [|constructor; [|constructor]];
             unfold worksFor; simpl; left; by eexists.
        -- by apply worksFor_upstreams.
      * assert (readyLoggers
                  (trace (state s)
                   ++ [Printf "[DEBUG] got new config";
                       CallNewService (ProxiedServiceID c)]) = []) as ->.
        { unfold readyLoggers in *. by rewrite omap_app, Hrl. }
        done.
  - destruct (step_other_quiet _ _ _ Hstep Hne) as (_ & _ & _ & _ & _ & ->).
    assert (forall i g,
              goroutines (state s) !! i = Some (Live g) ->
              match readyLoggers (trace (state s)) with
              | [] => <[i := Finished g]> (goroutines (state s)) = []
              | svc :: _ =>
                Forall (worksFor svc) (<[i := Finished g]> (goroutines (state s)))
              end) as Hrun.
    { intros i g Hi. destruct (readyLoggers (trace (state s))) as [|svc rl].
      - by rewrite Hinv in Hi.
      - apply Forall_insert; [done|].
        exact (proj1 (Forall_lookup _ _) Hinv i (Live g) Hi). }
    destruct Hstep; simpl; try done; by apply Hrun.
Qed.

(** X5.  A running proxy has one identity service for all its listeners.
    Until the setup of the first snapshot has run, no listener is
    constructed or started and there is no goroutine.  From then on
    [p.service] is the service that [NewService] made for the
    [ProxiedServiceID] of the first snapshot [Serve] received, the only
    [NewService] call of the execution.  Every goroutine of the pool is
    the readiness goroutine of that service or serves or closes a listener
    that [NewPublicListener] or [NewUpstreamListener] made from that
    service, also in a proxy that [NewFromConfigFile] built with another
    one; and the first listener started was the public one. *)
Theorem one_service_for_all_listeners p w sched s :
  run sched (initSys p w) = Some s ->
  match readyLoggers (trace (state s)) with
  | [] =>
    listenerServices (trace (state s)) = [] /\
    starts (trace (state s)) = [] /\
    goroutines (state s) = []
  | svc :: _ =>
    (exists c,
       (w ++ delivered sched) !! 0%nat = Some c /\
       serviceCalls (trace (state s)) = [ProxiedServiceID c] /\
       NewService (ProxiedServiceID c) (client p) = inl svc) /\
    service (proxy (state s)) = Some svc /\
    Forall (worksFor svc) (goroutines (state s)) /\
    Forall (eq (Some svc)) (listenerServices (trace (state s))) /\
    exists pl rest,
      publicBuilt (trace (state s)) = [pl] /\
      starts (trace (state s))
      = ("public listener", NewPublicListener (Some svc) pl) :: rest
  end.
Proof.
  intros Hrun.
  assert (freshInv p s /\ setupInv s /\ oneServiceInv p s /\ poolServiceInv s)
    as (_ & _ & Hone & Hpool).
  { revert Hrun.
    apply (run_invariant
             (fun s => freshInv p s /\ setupInv s /\ oneServiceInv p s
                       /\ poolServiceInv s)).
    - intros a s0 s1 (Hf & Hs & Ho & Hp) Hstep. split; [|split; [|split]].
      + by eapply freshInv_step.
      + by eapply setupInv_step.
      + by eapply oneServiceInv_step.
      + by eapply poolServiceInv_step.
    - split; [apply freshInv_init|]. by repeat split. }
  unfold oneServiceInv in Hone. unfold poolServiceInv in Hpool.
  destruct (readyLoggers (trace (state s))) as [|svc rl].
  - destruct Hone as (Hl & Hst). done.
  - destruct Hone as ((id & Hid & Hnew) & Hsvc & Hall & Hpub).
    destruct (first_id_run sched (initSys p w) s eq_refl eq_refl Hrun)
      as [Hnone|(c & Hhead & Hc)]; [congruence|].
    assert (id = ProxiedServiceID c) as -> by congruence.
    split; [by exists c|]. done.
Qed.

End Proxy.

(** * A concrete proxy

    An instance of the collaborators on which the system runs by
    computation: services, listeners and errors are strings, an upstream's
    settings are its destination name. *)

#[global] Instance demoTypes : Foreign := {|
  Client := unit;
  Service := string;
  error := string;
  Resolver := string;
  ConfigWatcher := unit;
  PublicListenerConfig := string;
  UpstreamSettings := string;
  Listener := string
|}.

Definition demoUpstream (port : Z) (dest : string) : UpstreamConfig :=
  {| LocalBindPort := port; resolver := None; settings := dest |}.

(** A public listener and two upstreams, the second without a bind port. *)
Definition demoSnapshot : Config :=
  {| ProxyID := "web-proxy";
     ProxiedServiceID := "web";
     PublicListener := "";
     Upstreams := [demoUpstream 5000 "db"; demoUpstream 0 "cache"];
     DevCAFile := "ca.pem";
     DevServiceCertFile := "web.pem";
     DevServiceKeyFile := "web.key" |}.

(** A snapshot for which no identity service can be constructed. *)
Definition demoAnonymous : Config :=
  {| ProxyID := "web-proxy";
     ProxiedServiceID := "";
     PublicListener := "";
     Upstreams := [demoUpstream 5000 "db"];
     DevCAFile := "";
     DevServiceCertFile := "";
     DevServiceKeyFile := "" |}.

#[global] Instance demoOps : Collaborators := {|
  ParseConfigFile := fun filename =>
    if String.eqb filename "proxy.hcl" then inl demoSnapshot
    else inr ("open " +:+ filename);
  NewDevServiceFromCertFiles := fun id _ _ _ => inl ("dev/" +:+ id);
  NewStaticConfigWatcher := fun _ => tt;
  NewAgentConfigWatcher := fun _ _ => inl tt;
  NewService := fun id _ =>
    if String.eqb id "" then inr "no service ID" else inl ("agent/" +:+ id);
  publicApplyDefaults := fun pl =>
    if String.eqb pl "" then "0.0.0.0:20000" else pl;
  upstreamApplyDefaults := fun uc =>
    {| LocalBindPort := LocalBindPort uc;
       resolver := resolver uc;
       settings := if String.eqb (settings uc) "" then "default" else settings uc |};
  UpstreamResolverFromClient := fun _ uc => settings uc;
  upstreamString := fun uc => settings uc;
  NewPublicListener := fun _ pl => pl;
  NewUpstreamListener := fun _ uc => "127.0.0.1/" +:+ settings uc;
  BindAddr := fun l => l;
  errString := fun e => e;
  leafURI := fun svc => svc;
  rootSubjects := fun _ => "root"
|}.

Lemma demo_keeps_port (uc : UpstreamConfig) :
  LocalBindPort (upstreamApplyDefaults uc) = LocalBindPort uc.
Proof. reflexivity. Defined.

(** The proxy [New] builds, and the one [NewFromConfigFile] builds. *)
Definition demoProxy : Proxy :=
  {| proxyID := "web-proxy"; client := tt; cfgWatcher := tt;
     stopChan := Open; service := None |}.

Definition demoFileProxy : Proxy :=
  {| proxyID := "web-proxy"; client := tt; cfgWatcher := tt;
     stopChan := Open; service := Some "dev/web" |}.

Example demo_New : New tt "web-proxy" = inl demoProxy.
Proof. reflexivity. Qed.

Example demo_NewFromConfigFile : NewFromConfigFile tt "proxy.hcl" = inl demoFileProxy.
Proof. reflexivity. Qed.

(** The system after [sched], from [Serve]'s start on [p] with [w] waiting. *)
Definition after (p : Proxy) (w : list Config) (sched : list Action) : Sys :=
  default (initSys p w) (run sched (initSys p w)).

(** The scenario of the specification: the public listener and the
    upstream at port 5000 run, the upstream at port 0 is reported and
    skipped, and [Serve] is in its loop. *)
Example demo_scenario :
  let s := after demoProxy [demoSnapshot] [SelectConfig] in
  starts (trace (state s))
  = [("public listener", "0.0.0.0:20000"); ("db", "127.0.0.1/db")] /\
  Printf "[ERR] upstream cache has no local_bind_port. Can't start upstream."
    ∈ trace (state s) /\
  goroutines (state s)
  = [Live (ReadyLogger "agent/web");
     Live (ListenerServe "public listener" "0.0.0.0:20000");
     Live (ListenerCloser "0.0.0.0:20000");
     Live (ListenerServe "db" "127.0.0.1/db");
     Live (ListenerCloser "127.0.0.1/db")] /\
  serve s = Looping (Some (withPublicDefaults demoSnapshot)) /\
  exec SelectConfig s = None /\ exec SelectStop s = None.
Proof.
  vm_compute. repeat split. repeat constructor.
Qed.

(** ** The theorems at work on the concrete proxy *)

(** C1 on a proxy from [New] whose first snapshot names no service; the
    caller then closes the proxy. *)
Lemma identity_failure_is_fatal_witness :
  let s' := after demoProxy [demoAnonymous] [SelectConfig; CallClose] in
  serve s' = Returned (Some "no service ID") /\
  starts (trace (state s')) = [] /\
  launched (trace (state s')) = [] /\
  goroutines (state s') = [].
Proof.
  intros s'.
  assert (run [SelectConfig; CallClose] (initSys demoProxy [demoAnonymous])
          = Some s') as Hrun by (vm_compute; reflexivity).
  pose proof (identity_failure_is_fatal demoProxy [demoAnonymous] []
                (initSys demoProxy [demoAnonymous]) demoAnonymous []
                "no service ID" [CallClose] s'
                eq_refl eq_refl eq_refl eq_refl Hrun)
    as (_ & Hret & _ & _ & Hstarts & _ & _ & Hlaunched & Hthreads).
  exact (conj Hret (conj Hstarts (conj Hlaunched Hthreads))).
Defined.

(** C2 on the running proxy of the scenario: the public listener's
    [Serve()] fails. *)
Lemma startListener_fire_and_forget_witness :
  let s := after demoProxy [demoSnapshot] [SelectConfig] in
  exec (RunThread 1 (Some "accept: too many open files")) s
  = Some (mkSys
            (mkState (proxy (state s))
               (<[1%nat := Finished (ListenerServe "public listener" "0.0.0.0:20000")]>
                  (goroutines (state s)))
               (trace (state s)
                ++ [Printf (stoppedLine "public listener"
                              (Some "accept: too many open files"))]))
            (watch s) (serve s)).
Proof.
  intros s.
  assert (goroutines (state s) !! 1%nat
          = Some (Live (ListenerServe "public listener" "0.0.0.0:20000")))
    as Hthread by (vm_compute; reflexivity).
  exact (proj2 (startListener_fire_and_forget "public listener" "0.0.0.0:20000"
                  s 1 (Some "accept: too many open files") Hthread)).
Defined.

(** A listener-start protocol that fails to start anything. *)
Definition failingStart (name : string) (l : Listener) : M (option error) :=
  fun st => (Val (Some ("listen " +:+ BindAddr l +:+ ": address already in use")), st).

(** C3 with that protocol, on the first snapshot of the scenario. *)
Lemma public_start_failure_is_fatal_witness :
  let st := state (initSys demoProxy [demoSnapshot]) in
  onConfigWith failingStart None demoSnapshot st
  = (Return (Some "listen 0.0.0.0:20000: address already in use"),
     beforePublicStart st "agent/web" demoSnapshot).
Proof.
  intros st.
  assert (NewService (ProxiedServiceID demoSnapshot) (client (proxy st))
          = inl "agent/web") as Hsvc by (vm_compute; reflexivity).
  assert (failingStart "public listener" (publicListenerOf "agent/web" demoSnapshot)
            (beforePublicStart st "agent/web" demoSnapshot)
          = (Val (Some "listen 0.0.0.0:20000: address already in use"),
             beforePublicStart st "agent/web" demoSnapshot))
    as Hfail by (vm_compute; reflexivity).
  exact (proj1 (public_start_failure_is_fatal failingStart demoSnapshot st
                  "agent/web" "listen 0.0.0.0:20000: address already in use"
                  (beforePublicStart st "agent/web" demoSnapshot)
                  Hsvc Hfail)).
Defined.

(** C4 on the scenario's upstream at port 0. *)
Lemma invalid_upstream_is_skipped_witness :
  let s := initSys demoProxy [demoSnapshot] in
  let s' := after demoProxy [demoSnapshot] [SelectConfig] in
  let p' := proxy (state s') in
  exec SelectConfig s = Some s' /\
  exists front frontThreads,
    trace (state s')
    = trace (state s) ++ front
      ++ flat_map (upstreamEffects p') [demoUpstream 5000 "db"]
      ++ Printf (noPortLine (prepared p' (demoUpstream 0 "cache")))
      :: flat_map (upstreamEffects p') [] /\
    goroutines (state s')
    = goroutines (state s) ++ frontThreads
      ++ flat_map (upstreamThreads p') [demoUpstream 5000 "db"]
      ++ flat_map (upstreamThreads p') [] /\
    upstreamBuilt front = [] /\
    liveClosers frontThreads = (starts front).*2.
Proof.
  intros s s' p'.
  assert (exec SelectConfig s = Some s') as Hexec' by (vm_compute; reflexivity).
  assert (serve s' = Looping (Some (withPublicDefaults demoSnapshot)))
    as Hloops by (vm_compute; reflexivity).
  destruct (invalid_upstream_is_skipped demo_keeps_port s None demoSnapshot []
              [demoUpstream 5000 "db"] (demoUpstream 0 "cache") []
              eq_refl eq_refl eq_refl ltac:(vm_compute; reflexivity))
    as (_ & s1 & Hexec & _ & Hloop).
  assert (s1 = s') as Hs1 by congruence.
  rewrite Hs1 in Hloop.
  exact (conj Hexec' (Hloop _ Hloops)).
Defined.

(** C5 on the scenario's snapshot, delivered twice. *)
Lemma valid_upstreams_start_once_per_snapshot_witness :
  let s := initSys demoProxy [demoSnapshot; demoSnapshot] in
  let s1 := after demoProxy [demoSnapshot; demoSnapshot] [SelectConfig] in
  let s2 := after demoProxy [demoSnapshot; demoSnapshot] [SelectConfig; SelectConfig] in
  starts (trace (state s1))
  = [("public listener", "0.0.0.0:20000"); ("db", "127.0.0.1/db")] /\
  goroutines (state s1)
  = [Live (ReadyLogger "agent/web");
     Live (ListenerServe "public listener" "0.0.0.0:20000");
     Live (ListenerCloser "0.0.0.0:20000");
     Live (ListenerServe "db" "127.0.0.1/db");
     Live (ListenerCloser "127.0.0.1/db")] /\
  starts (trace (state s2))
  = [("public listener", "0.0.0.0:20000"); ("db", "127.0.0.1/db");
     ("db", "127.0.0.1/db")] /\
  goroutines (state s2)
  = goroutines (state s1)
    ++ [Live (ListenerServe "db" "127.0.0.1/db");
        Live (ListenerCloser "127.0.0.1/db")].
Proof.
  intros s s1 s2.
  assert (exec SelectConfig s = Some s1) as Hexec1 by (vm_compute; reflexivity).
  assert (exec SelectConfig s1 = Some s2) as Hexec2 by (vm_compute; reflexivity).
  assert (serve s1 = Looping (Some (withPublicDefaults demoSnapshot)))
    as Hloops by (vm_compute; reflexivity).
  destruct (valid_upstreams_start_once_per_snapshot demo_keeps_port s None
              demoSnapshot [demoSnapshot] s1 eq_refl eq_refl Hexec1
              (ex_intro _ _ Hloops))
    as (Hfirst & _ & _ & Hpool & Hagain).
  destruct (Hagain [] s2 eq_refl Hexec2) as (Hsecond & _ & _ & Hpool2).
  vm_compute in Hfirst, Hsecond, Hpool, Hpool2 |- *.
  exact (conj Hfirst (conj Hpool (conj Hsecond Hpool2))).
Defined.

(** C6: the proxy is closed, [Serve] takes the stop case, a snapshot
    arrives too late. *)
Lemma stop_returns_nil_witness :
  let s' := after demoProxy [demoSnapshot]
              ([SelectConfig; CallClose] ++ SelectStop :: [Deliver demoSnapshot]) in
  serve s' = Returned None.
Proof.
  intros s'.
  assert (run ([SelectConfig; CallClose] ++ SelectStop :: [Deliver demoSnapshot])
            (initSys demoProxy [demoSnapshot]) = Some s')
    as Hrun by (vm_compute; reflexivity).
  exact (proj2 (stop_returns_nil [SelectConfig; CallClose] [Deliver demoSnapshot]
                  (initSys demoProxy [demoSnapshot]) s' Hrun)).
Defined.

(** C7 on the second snapshot of a running proxy. *)
Lemma setup_only_on_first_snapshot_witness :
  let s := after demoProxy [demoSnapshot; demoSnapshot] [SelectConfig] in
  exists s',
    exec SelectConfig s = Some s' /\
    serve s' = Looping (Some demoSnapshot) /\
    proxy (state s') = proxy (state s) /\
    serviceCalls (trace (state s')) = serviceCalls (trace (state s)) /\
    publicBuilt (trace (state s')) = publicBuilt (trace (state s)) /\
    readyLoggers (trace (state s')) = readyLoggers (trace (state s)) /\
    serviceCalls (trace (state s)) = ["web"].
Proof.
  intros s.
  assert (run [SelectConfig] (initSys demoProxy [demoSnapshot; demoSnapshot])
          = Some s) as Hrun by (vm_compute; reflexivity).
  assert (serve s = Looping (Some (withPublicDefaults demoSnapshot)))
    as Hserve by (vm_compute; reflexivity).
  assert (watch s = [demoSnapshot]) as Hwatch by (vm_compute; reflexivity).
  assert (serviceCalls (trace (state s)) = ["web"])
    as Hweb by (vm_compute; reflexivity).
  destruct (setup_only_on_first_snapshot demoProxy [demoSnapshot; demoSnapshot]
              [SelectConfig] s (Some (withPublicDefaults demoSnapshot))
              demoSnapshot [] Hrun Hserve Hwatch)
    as (s' & Hexec & (Hloop & Hproxy & _ & Hsvc & Hpub & Hready) & _).
  exact (ex_intro _ s'
           (conj Hexec (conj Hloop (conj Hproxy (conj Hsvc (conj Hpub
              (conj Hready Hweb))))))).
Defined.

(** C8 on a proxy from [New] that was sent a snapshot it has not yet
    received. *)
Lemma close_fires_stop_then_closes_service_witness :
  let s := after demoProxy [] [Deliver demoSnapshot] in
  exists s',
    exec CallClose s = Some s' /\
    trace (state s') = trace (state s) ++ [CloseStopChan] /\
    exec CallClose s' = None /\
    exec SelectStop s = None /\
    exists s'', exec SelectStop s' = Some s'' /\ serve s'' = Returned None.
Proof.
  intros s.
  assert (run [Deliver demoSnapshot] (initSys demoProxy []) = Some s)
    as Hrun by (vm_compute; reflexivity).
  assert (stopChan (proxy (state s)) = Open) as Hopen by (vm_compute; reflexivity).
  assert (serve s = Looping None) as Hserve by (vm_compute; reflexivity).
  destruct (close_fires_stop_then_closes_service demoProxy [] [Deliver demoSnapshot]
              s eq_refl Hrun Hopen)
    as (s' & Hexec & _ & _ & _ & _ & Hpanic & Hunblock & Hnew).
  destruct (Hunblock None Hserve) as (Hblocked & Hreturns).
  destruct (Hnew tt "web-proxy" demo_New Hserve) as (_ & Htrace).
  exact (ex_intro _ s'
           (conj Hexec (conj Htrace (conj Hpanic (conj Hblocked Hreturns))))).
Defined.

(** C9 on the scenario's proxy after [Close]: the public listener's closer
    is goroutine 2, the upstream's is goroutine 4. *)
Lemma closer_is_the_only_way_to_stop_a_listener_witness :
  let s := after demoProxy [demoSnapshot] [SelectConfig; CallClose] in
  (exists s',
     exec (RunThread 2 None) s = Some s' /\
     trace (state s') = trace (state s) ++ [ListenerClose "0.0.0.0:20000"] /\
     forall r', exec (RunThread 2 r') s' = None) /\
  exists sched s',
    run sched s = Some s' /\
    length sched = length (liveClosers (goroutines (state s))) /\
    liveClosers (goroutines (state s')) = [] /\
    closes (trace (state s')) ≡ₚ (starts (trace (state s))).*2.
Proof.
  intros s.
  assert (run [SelectConfig; CallClose] (initSys demoProxy [demoSnapshot]) = Some s)
    as Hrun by (vm_compute; reflexivity).
  assert (stopChan (proxy (state s)) = Closed) as Hclosed by (vm_compute; reflexivity).
  assert (goroutines (state s) !! 2%nat = Some (Live (ListenerCloser "0.0.0.0:20000")))
    as Hthread by (vm_compute; reflexivity).
  destruct (closer_is_the_only_way_to_stop_a_listener demoProxy [demoSnapshot]
              [SelectConfig; CallClose] s eq_refl Hrun)
    as (_ & _ & _ & Hcloser & _ & _ & Hdrain).
  pose proof (Hcloser 2%nat "0.0.0.0:20000" None Hthread) as Hat2.
  rewrite Hclosed in Hat2.
  destruct Hat2 as (s1 & Hexec & Htrace & _ & Honce).
  destruct (Hdrain Hclosed) as (sched & s2 & Hdone & Hlen & Hnone & _ & Hall).
  exact (conj (ex_intro _ s1 (conj Hexec (conj Htrace Honce)))
           (ex_intro _ sched
              (ex_intro _ s2 (conj Hdone (conj Hlen (conj Hnone Hall)))))).
Defined.

(** C10 on the proxy [NewFromConfigFile] builds from [proxy.hcl]. *)
Lemma first_snapshot_replaces_service_witness :
  let s := initSys demoFileProxy [demoSnapshot] in
  (exists cfg0 dev,
     ParseConfigFile "proxy.hcl" = inl cfg0 /\
     NewDevServiceFromCertFiles (ProxiedServiceID cfg0) (DevCAFile cfg0)
       (DevServiceCertFile cfg0) (DevServiceKeyFile cfg0) = inl dev /\
     service (proxy (state s)) = Some dev) /\
  service (proxy (state s)) = Some "dev/web" /\
  exists s',
    exec SelectConfig s = Some s' /\
    service (proxy (state s')) = Some "agent/web".
Proof.
  intros s.
  assert (NewService (ProxiedServiceID demoSnapshot) (client (proxy (state s)))
          = inl "agent/web") as Hsvc by (vm_compute; reflexivity).
  destruct (first_snapshot_replaces_service s demoSnapshot [] "agent/web"
              eq_refl eq_refl Hsvc)
    as ((s' & Hexec & _ & Hnow & _) & Hfile).
  exact (conj (Hfile tt "proxy.hcl" demoFileProxy [demoSnapshot] []
                 demo_NewFromConfigFile eq_refl)
           (conj eq_refl (ex_intro _ s' (conj Hexec Hnow)))).
Defined.

(** ** The further properties at work on the concrete proxy *)

(** X1 on the scenario's proxy, closed after its first snapshot and left
    running. *)
Lemma constructed_proxy_closes_at_most_once_witness :
  let sched := [SelectConfig; CallClose; RunThread 2 None; SelectStop] in
  let s := after demoProxy [demoSnapshot] sched in
  (exists pre post,
     sched = pre ++ CallClose :: post /\ (CallClose ∉ pre) /\ (CallClose ∉ post)) /\
  stopFired (trace (state s)) = [()] /\
  exec CallClose s = None.
Proof.
  intros sched s.
  assert (run sched (initSys demoProxy [demoSnapshot]) = Some s)
    as Hrun by (vm_compute; reflexivity).
  assert (stopChan (proxy (state s)) = Closed) as Hclosed by (vm_compute; reflexivity).
  destruct (constructed_proxy_closes_at_most_once (client demoProxy) demoProxy [demoSnapshot] sched s
              (or_introl (ex_intro _ "web-proxy" demo_New)) Hrun)
    as (_ & Hcase).
  rewrite Hclosed in Hcase. exact Hcase.
Defined.

Lemma failingStart_handsBack : handsBack failingStart.
Proof. intros name l st. by eexists _, _. Defined.

(** X3 with the failing start protocol on the scenario's upstream at port
    5000, in a proxy that holds a config. *)
Lemma upstream_start_failure_is_not_fatal_witness :
  let st := state (after demoProxy [demoSnapshot] [SelectConfig]) in
  let uc := demoUpstream 5000 "db" in
  upstreamBody failingStart uc st
  = (Val tt,
     mkState (proxy st) (goroutines st)
       (trace st
        ++ [CallNewUpstreamListener (service (proxy st)) (prepared (proxy st) uc);
            CallStartListener "db" "127.0.0.1/db";
            Printf "[ERR] failed to start upstream db: listen 127.0.0.1/db: address already in use"])) /\
  exists st', onConfigWith failingStart (Some demoSnapshot) demoSnapshot st
              = (Val demoSnapshot, st').
Proof.
  intros st uc.
  assert (1 <= LocalBindPort uc) as Hport by (vm_compute; discriminate).
  pose (st1 := mkState (proxy st) (goroutines st)
                 (trace st
                  ++ [CallNewUpstreamListener (service (proxy st)) (prepared (proxy st) uc);
                      CallStartListener (upstreamString (prepared (proxy st) uc))
                        (NewUpstreamListener (service (proxy st)) (prepared (proxy st) uc))])).
  assert (failingStart (upstreamString (prepared (proxy st) uc))
            (NewUpstreamListener (service (proxy st)) (prepared (proxy st) uc)) st1
          = (Val (Some "listen 127.0.0.1/db: address already in use"), st1))
    as Hfail by (vm_compute; reflexivity).
  destruct (upstream_start_failure_is_not_fatal demo_keeps_port failingStart uc st
              "listen 127.0.0.1/db: address already in use" st1
              demoSnapshot demoSnapshot failingStart_handsBack Hport Hfail)
    as (Hbody & _ & Hpass).
  split.
  - rewrite Hbody. vm_compute. reflexivity.
  - exact (Hpass st).
Defined.

(** X4 on the scenario's snapshot, received twice. *)
Lemma two_goroutines_per_start_witness :
  let s := after demoProxy [demoSnapshot; demoSnapshot] [SelectConfig; SelectConfig] in
  length (goroutines (state s)) = 7%nat /\
  length (starts (trace (state s))) = 3%nat.
Proof.
  intros s.
  assert (run [SelectConfig; SelectConfig]
            (initSys demoProxy [demoSnapshot; demoSnapshot]) = Some s)
    as Hrun by (vm_compute; reflexivity).
  assert (length (readyLoggers (trace (state s))) = 1%nat
          /\ length (starts (trace (state s))) = 3%nat)
    as [Hready Hstarts] by (vm_compute; split; reflexivity).
  destruct (two_goroutines_per_start demoProxy [demoSnapshot; demoSnapshot]
              [SelectConfig; SelectConfig] s Hrun)
    as (_ & Hcount & _).
  rewrite Hready, Hstarts in Hcount.
  exact (conj Hcount Hstarts).
Defined.

(** X6 on the scenario's proxy, closed while a second snapshot waits. *)
Lemma snapshot_may_be_processed_after_close_witness :
  let s := after demoProxy [demoSnapshot; demoSnapshot] [SelectConfig; CallClose] in
  (exists s1, exec SelectStop s = Some s1 /\ serve s1 = Returned None) /\
  exists s2,
    exec SelectConfig s = Some s2 /\
    stopChan (proxy (state s2)) = Closed /\
    starts (trace (state s2))
    = starts (trace (state s))
      ++ starts (configEffects (proxy (state s))
                   (Some (withPublicDefaults demoSnapshot)) demoSnapshot).
Proof.
  intros s.
  assert (serve s = Looping (Some (withPublicDefaults demoSnapshot)))
    as Hserve by (vm_compute; reflexivity).
  assert (watch s = [demoSnapshot]) as Hwatch by (vm_compute; reflexivity).
  assert (stopChan (proxy (state s)) = Closed) as Hclosed by (vm_compute; reflexivity).
  destruct (snapshot_may_be_processed_after_close s
              (Some (withPublicDefaults demoSnapshot)) demoSnapshot []
              Hserve Hwatch Hclosed)
    as (Hstop & s2 & Hexec & Hstill & Hstarts & _).
  exact (conj Hstop (ex_intro _ s2 (conj Hexec (conj Hstill Hstarts)))).
Defined.

(** X8: two snapshots wait, a third is sent, [Serve] receives two. *)
Lemma snapshots_are_taken_in_order_witness :
  let sched := [SelectConfig; Deliver demoAnonymous; SelectConfig] in
  let s := initSys demoProxy [demoSnapshot; demoSnapshot] in
  let s' := after demoProxy [demoSnapshot; demoSnapshot] sched in
  watch s' = drop (received sched) (watch s ++ delivered sched) /\
  watch s' = [demoAnonymous].
Proof.
  intros sched s s'.
  assert (run sched s = Some s') as Hrun by (vm_compute; reflexivity).
  destruct (snapshots_are_taken_in_order sched s s' Hrun) as (Hqueue & _).
  split; [exact Hqueue|]. vm_compute. reflexivity.
Defined.

(** X2 on the proxy whose first snapshot names no service, with a good
    snapshot sent after it. *)
Lemma serve_returns_nil_or_identity_error_witness :
  let sched := [Deliver demoSnapshot; SelectConfig; CallClose] in
  let s := after demoProxy [demoAnonymous] sched in
  (exists c,
     ([demoAnonymous] ++ delivered sched) !! 0%nat = Some c /\
     serviceCalls (trace (state s)) = [ProxiedServiceID c] /\
     NewService (ProxiedServiceID c) (client demoProxy) = inr "no service ID") /\
  goroutines (state s) = [] /\
  starts (trace (state s)) = [] /\
  launched (trace (state s)) = [] /\
  publicBuilt (trace (state s)) = [] /\
  upstreamBuilt (trace (state s)) = [].
Proof.
  intros sched s.
  assert (run sched (initSys demoProxy [demoAnonymous]) = Some s)
    as Hrun by (vm_compute; reflexivity).
  assert (serve s = Returned (Some "no service ID"))
    as Hret by (vm_compute; reflexivity).
  exact (serve_returns_nil_or_identity_error demoProxy [demoAnonymous]
           sched s (Some "no service ID") Hrun Hret).
Defined.

(** X5 on the proxy built from [proxy.hcl], which held the service
    [dev/web], after two passes over the scenario's snapshot. *)
Lemma one_service_for_all_listeners_witness :
  let sched := [SelectConfig; SelectConfig] in
  let s := after demoFileProxy [demoSnapshot; demoSnapshot] sched in
  (exists c,
     ([demoSnapshot; demoSnapshot] ++ delivered sched) !! 0%nat = Some c /\
     serviceCalls (trace (state s)) = [ProxiedServiceID c] /\
     NewService (ProxiedServiceID c) (client demoFileProxy) = inl "agent/web") /\
  service (proxy (state s)) = Some "agent/web" /\
  Forall (worksFor "agent/web") (goroutines (state s)) /\
  Forall (eq (Some "agent/web")) (listenerServices (trace (state s))) /\
  exists pl rest,
    publicBuilt (trace (state s)) = [pl] /\
    starts (trace (state s))
    = ("public listener", NewPublicListener (Some "agent/web") pl) :: rest.
Proof.
  intros sched s.
  assert (run sched (initSys demoFileProxy [demoSnapshot; demoSnapshot]) = Some s)
    as Hrun by (vm_compute; reflexivity).
  assert (readyLoggers (trace (state s)) = ["agent/web"])
    as Hready by (vm_compute; reflexivity).
  pose proof (one_service_for_all_listeners demoFileProxy [demoSnapshot; demoSnapshot]
                sched s Hrun) as Hone.
  rewrite Hready in Hone. exact Hone.
Defined.
